(** * The content-analysis library [libs/social.py]

    A shallow embedding of the pure text functions of [libs/social.py]
    and the properties its specification states about them.

    Python strings are sequences of Unicode code points.  A character is
    the code point as a number and a string is a list of them.  What Python
    takes from the Unicode character database ([str.isspace], [str.isalnum],
    [str.lower], and with them [\s], [\w] and [\b] of the [re] module) is
    written out for the ASCII range and left to a table [unicode_db] for
    every other code point, so every statement below holds whatever that
    table says. *)

From Stdlib Require Import String Ascii List NArith ZArith Bool Lia.
Import ListNotations.

(** ** Strings *)

Definition char := N.
Definition str := list char.

(** A string literal of the source (ASCII only). *)
Definition py (s : string) : str := map N_of_ascii (list_ascii_of_string s).

(** [len(s)]. *)
Definition len (s : str) : Z := Z.of_nat (length s).

Definition chr_eqb (a b : char) : bool := N.eqb a b.

Fixpoint str_eqb (a b : str) : bool :=
  match a, b with
  | [], [] => true
  | x :: a', y :: b' => chr_eqb x y && str_eqb a' b'
  | _, _ => false
  end.

Definition SPACE : char := 32%N.
Definition UNDERSCORE : char := 95%N.
Definition AT_SIGN : char := 64%N.
Definition HASH : char := 35%N.
Definition DOT : char := 46%N.
Definition BAR : char := 124%N.
Definition COLON : char := 58%N.

Fixpoint take_while (p : char -> bool) (s : str) : str :=
  match s with
  | c :: t => if p c then c :: take_while p t else []
  | [] => []
  end.

Fixpoint drop_while (p : char -> bool) (s : str) : str :=
  match s with
  | c :: t => if p c then drop_while p t else s
  | [] => []
  end.

(** ** Character classes *)

Definition in_range (lo hi c : char) : bool := N.leb lo c && N.leb c hi.

Definition is_ascii (c : char) : bool := N.ltb c 128%N.

(** [str.isspace] below U+0080: TAB, LF, VT, FF, CR, FS, GS, RS, US, SPACE. *)
Definition ascii_isspace (c : char) : bool := in_range 9%N 13%N c || in_range 28%N 32%N c.

Definition ascii_isdigit (c : char) : bool := in_range 48%N 57%N c.
Definition ascii_isupper (c : char) : bool := in_range 65%N 90%N c.
Definition ascii_islower (c : char) : bool := in_range 97%N 122%N c.
Definition ascii_isalpha (c : char) : bool := ascii_isupper c || ascii_islower c.
Definition ascii_isalnum (c : char) : bool := ascii_isalpha c || ascii_isdigit c.

Definition ascii_lower (c : char) : char := if ascii_isupper c then (c + 32)%N else c.

(** The Unicode character database beyond ASCII. [db_lower] is a function
    of the whole string, as [str.lower] is (one character may become
    several, and the final sigma depends on its context). *)
Record unicode_db : Type := {
  db_isspace : char -> bool;
  db_isalnum : char -> bool;
  db_lower : str -> str
}.

(** A table that classifies nothing beyond ASCII; it serves to evaluate the
    functions on ASCII inputs, which never reach the table. *)
Definition ascii_only : unicode_db :=
  {| db_isspace := fun _ => false; db_isalnum := fun _ => false; db_lower := fun s => s |}.

(** Outcome of a Python call. *)
Inductive exception : Type := ValueError | TypeError.

Inductive outcome (A : Type) : Type :=
| Returns (v : A)
| Raises (e : exception).

Arguments Returns {A} v.
Arguments Raises {A} e.

(** ** String methods that consult no table *)

(** [sub in s]. *)
Fixpoint starts_with (sub s : str) : bool :=
  match sub, s with
  | [], _ => true
  | x :: sub', y :: s' => chr_eqb x y && starts_with sub' s'
  | _ :: _, [] => false
  end.

Fixpoint contains (sub s : str) : bool :=
  starts_with sub s ||
  match s with
  | [] => false
  | _ :: t => contains sub t
  end.

(** [s.count(sub)]: occurrences that do not overlap, from the left; the
    empty string occurs between any two characters and at both ends.
    [skip] counts the characters of the last occurrence still to pass. *)
Fixpoint count_from (sub s : str) (skip : nat) : nat :=
  match s with
  | [] => 0
  | _ :: t =>
      match skip with
      | S k => count_from sub t k
      | O => if starts_with sub s
             then S (count_from sub t (length sub - 1))
             else count_from sub t 0
      end
  end.

Definition str_count (s sub : str) : nat :=
  match sub with
  | [] => length s + 1
  | _ => count_from sub s 0
  end.

(** [sep.join(parts)]. *)
Fixpoint join (sep : str) (parts : list str) : str :=
  match parts with
  | [] => []
  | [p] => p
  | p :: rest => p ++ sep ++ join sep rest
  end.

(** [s[:n]]: a negative stop counts from the end, and both are clipped. *)
Definition slice_to (s : str) (n : Z) : str :=
  let stop := if (n <? 0)%Z then Z.max 0 (len s + n) else Z.min n (len s) in
  firstn (Z.to_nat stop) s.

(** [s.rsplit(sep, 1)] for a one-character separator: the string cut at
    its last separator, or the string alone when it has none. *)
Fixpoint rsplit1 (sep : char) (s : str) : list str :=
  match s with
  | [] => [[]]
  | c :: t =>
      match rsplit1 sep t with
      | [a; b] => [c :: a; b]
      | _ => if chr_eqb c sep then [[]; t] else [c :: t]
      end
  end.

(** ** The summarizer *)

Definition summarize_content (content : str) (max_length : Z) : str :=
  if (len content <=? max_length)%Z then content
  else hd [] (rsplit1 SPACE (slice_to content max_length)) ++ py "...".

(** The outcome of a call [summarize_content(content, max_length)] on a
    string and an integer: the body checks nothing about [max_length] and has
    no [raise]; [len], [<=], slicing, [rsplit], the index [0] into the
    non-empty list [rsplit] returns, and [+] are defined on these types,
    so both paths end in [return]. *)
Definition summarize_content_call (content : str) (max_length : Z) : outcome str :=
  Returns (summarize_content content max_length).

(** ** A backtracking matcher for the patterns of the library

    The patterns of [libs/social.py] are built from literal characters, a
    greedy repetition of one character class, an optional item, sequencing,
    one capturing group and the word boundary.  The matcher tries the
    alternatives in the order of [re]: a greedy repetition first takes the
    longest run and gives characters back one at a time, an optional item
    is tried before it is skipped. *)

Inductive regex : Type :=
| Bnd                                     (* \b *)
| Chr (c : char)                          (* a literal character *)
| Rep (cls : char -> bool) (min : nat)    (* [cls]{min,}, greedy *)
| Opt (r : regex)                         (* r?, greedy *)
| Cat (r1 r2 : regex)                     (* r1 r2 *)
| Grp (r : regex).                        (* ( r ) *)

(** A literal string. *)
Fixpoint Lit (s : str) (r : regex) : regex :=
  match s with
  | [] => r
  | c :: t => Cat (Chr c) (Lit t r)
  end.

(** [try_down f lo d] is the first success among [f (lo + d)], ...,
    [f (lo + 1)], [f lo]. *)
Fixpoint try_down {A : Type} (f : nat -> option A) (lo d : nat) : option A :=
  match f (lo + d) with
  | Some a => Some a
  | None =>
      match d with
      | O => None
      | S d' => try_down f lo d'
      end
  end.

(** The character before the position, once [m] has been consumed. *)
Definition prev_after (prev : option char) (m : str) : option char :=
  match rev m with
  | [] => prev
  | c :: _ => Some c
  end.

Section Unicode.

Variable U : unicode_db.

(** [c.isspace()], which is also [\s] and what [split] and [strip] cut at. *)
Definition isspace (c : char) : bool :=
  if is_ascii c then ascii_isspace c else db_isspace U c.

(** [c.isalnum()]. *)
Definition isalnum (c : char) : bool :=
  if is_ascii c then ascii_isalnum c else db_isalnum U c.

(** [\w]: alphanumeric or the underscore. *)
Definition is_word (c : char) : bool := isalnum c || chr_eqb c UNDERSCORE.

(** [s.lower()]. *)
Definition lower (s : str) : str :=
  if forallb is_ascii s then map ascii_lower s else db_lower U s.

(** [s.split()]: the maximal runs of characters that are not whitespace.
    [cur] is the run being read. *)
Fixpoint split_from (cur s : str) : list str :=
  match s with
  | [] => match cur with [] => [] | _ => [cur] end
  | c :: t =>
      if isspace c
      then match cur with [] => split_from [] t | _ => cur :: split_from [] t end
      else split_from (cur ++ [c]) t
  end.

Definition split (s : str) : list str := split_from [] s.

(** [s.strip()]. *)
Definition strip (s : str) : str :=
  rev (drop_while isspace (rev (drop_while isspace s))).

(** [\b]: exactly one of the characters around the position is a word
    character (the ends of the string count as none). *)
Definition word_opt (c : option char) : bool :=
  match c with
  | Some x => is_word x
  | None => false
  end.

Definition at_boundary (prev : option char) (s : str) : bool :=
  xorb (word_opt prev) (word_opt (hd_error s)).

(** [exec r caps prev s k]: match [r] at the head of [s], [prev] being the
    character before it and [caps] the groups closed so far, then go on
    with [k]; [None] when every alternative fails. *)
Fixpoint exec {A : Type} (r : regex) (caps : list str) (prev : option char) (s : str)
    (k : list str -> option char -> str -> option A) : option A :=
  match r with
  | Bnd => if at_boundary prev s then k caps prev s else None
  | Chr c =>
      match s with
      | x :: t => if chr_eqb x c then k caps (Some x) t else None
      | [] => None
      end
  | Rep cls min =>
      let n := length (take_while cls s) in
      if Nat.ltb n min then None
      else try_down (fun j => k caps (prev_after prev (firstn j s)) (skipn j s)) min (n - min)
  | Opt r' =>
      match exec r' caps prev s k with
      | Some a => Some a
      | None => k caps prev s
      end
  | Cat r1 r2 => exec r1 caps prev s (fun caps' prev' s' => exec r2 caps' prev' s' k)
  | Grp r' =>
      exec r' caps prev s
        (fun caps' prev' s' => k (caps' ++ [firstn (length s - length s') s]) prev' s')
  end.

(** One attempt at a position: the groups and the rest of the string. *)
Definition match_at (r : regex) (prev : option char) (s : str) : option (list str * str) :=
  exec r [] prev s (fun caps _ rest => Some (caps, rest)).

(** What [findall] lists for a match: the group when the pattern has one,
    the whole match otherwise. *)
Definition item (caps : list str) (whole : str) : str :=
  match caps with
  | g :: _ => g
  | [] => whole
  end.

(** [re.findall(r, s)]: the matches from left to right, each search
    starting where the last match ended.  [skip] counts the characters of
    the last match still to pass.  No pattern of the library matches the
    empty string ([match_at_consumes] below); after such a match the scan
    would move on by one character. *)
Fixpoint scan (r : regex) (prev : option char) (s : str) (skip : nat) : list str :=
  match s with
  | [] =>
      match skip, match_at r prev [] with
      | O, Some (caps, _) => [item caps []]
      | _, _ => []
      end
  | c :: t =>
      match skip with
      | S k => scan r (Some c) t k
      | O =>
          match match_at r prev s with
          | Some (caps, rest) =>
              let whole := firstn (length s - length rest) s in
              item caps whole :: scan r (Some c) t (length whole - 1)
          | None => scan r (Some c) t 0
          end
      end
  end.

Definition findall (r : regex) (s : str) : list str := scan r None s 0.

(** [re.sub(r, '', s)] for a pattern [r] that is one character class:
    every character of the class is dropped. *)
Definition sub_class_empty (cls : char -> bool) (s : str) : str :=
  filter (fun c => negb (cls c)) s.

End Unicode.

(** ** The patterns and dictionaries of the library *)

(** Membership in a set of characters listed one by one. *)
Definition one_of (set : str) (c : char) : bool := existsb (chr_eqb c) set.

(** A Python dictionary: the keys in insertion order; storing under a key
    already present replaces its value and keeps its place. *)
Definition dict (V : Type) : Type := list (str * V).

Fixpoint dict_set {V : Type} (k : str) (v : V) (d : dict V) : dict V :=
  match d with
  | [] => [(k, v)]
  | (k', v') :: d' => if str_eqb k' k then (k', v) :: d' else (k', v') :: dict_set k v d'
  end.

(** The two entries of the dictionary [get_sentiment_keywords] returns. *)
Record sentiment_keywords : Type := {
  positive : list str;
  negative : list str
}.

Definition get_sentiment_keywords : sentiment_keywords :=
  {| positive := [py "good"; py "great"; py "excellent"; py "amazing";
                  py "awesome"; py "love"; py "best"; py "wonderful"];
     negative := [py "bad"; py "terrible"; py "awful"; py "hate";
                  py "worst"; py "horrible"; py "disappointing"; py "poor"] |}.

Definition SOCIAL_PLATFORMS : dict str :=
  [ (py "twitter", py "twitter.com");
    (py "facebook", py "facebook.com");
    (py "instagram", py "instagram.com");
    (py "linkedin", py "linkedin.com");
    (py "reddit", py "reddit.com");
    (py "youtube", py "youtube.com") ].

(** [[A-Za-z0-9._%+-]], [[A-Za-z0-9.-]] and [[A-Z|a-z]]. *)
Definition email_local (c : char) : bool :=
  ascii_isupper c || ascii_islower c || ascii_isdigit c || one_of (py "._%+-") c.

Definition email_domain (c : char) : bool :=
  ascii_isupper c || ascii_islower c || ascii_isdigit c || one_of (py ".-") c.

Definition email_tld (c : char) : bool :=
  ascii_isupper c || chr_eqb c BAR || ascii_islower c.

(** [sum(1 for word in words if word in text)]. *)
Definition count_hits (words : list str) (text : str) : nat :=
  list_sum (map (fun _ => 1) (filter (fun word => contains word text) words)).

Section Library.

Variable U : unicode_db.

(** [\b[A-Za-z0-9._%+-]+@[A-Za-z0-9.-]+\.[A-Z|a-z]{2,}\b] *)
Definition email_pattern : regex :=
  Cat Bnd (Cat (Rep email_local 1) (Cat (Chr AT_SIGN) (Cat (Rep email_domain 1)
    (Cat (Chr DOT) (Cat (Rep email_tld 2) Bnd))))).

(** The characters a URL stops at: whitespace, the double quote and
    [< > { } | \ ^ ` [ ]]. *)
Definition url_stop (c : char) : bool :=
  isspace U c || one_of [60; 62; 34; 123; 125; 124; 92; 94; 96; 91; 93]%N c.

(** [https?://] followed by one or more characters that are not
    [url_stop]. *)
Definition url_pattern : regex :=
  Lit (py "http") (Cat (Opt (Chr 115%N)) (Lit (py "://") (Rep (fun c => negb (url_stop c)) 1))).

(** [#(\w+)] and [@(\w+)] *)
Definition hashtag_pattern : regex := Cat (Chr HASH) (Grp (Rep (is_word U) 1)).
Definition mention_pattern : regex := Cat (Chr AT_SIGN) (Grp (Rep (is_word U) 1)).

(** [[^\w\s.,!?-]] *)
Definition special (c : char) : bool :=
  negb (is_word U c || isspace U c || one_of (py ".,!?-") c).

Definition search_text (content search_term : str) (case_sensitive : bool) : bool :=
  if negb case_sensitive
  then contains (lower U search_term) (lower U content)
  else contains search_term content.

Definition count_occurrences (content search_term : str) : nat :=
  str_count (lower U content) (lower U search_term).

Definition extract_emails (content : str) : list str := findall U email_pattern content.

Definition extract_urls (content : str) : list str := findall U url_pattern content.

Definition get_word_count (content : str) : nat := length (split U content).

Definition extract_hashtags (content : str) : list str := findall U hashtag_pattern content.

Definition extract_mentions (content : str) : list str := findall U mention_pattern content.

Definition clean_text (content : str) : str :=
  let content := join [SPACE] (split U content) in
  let content := sub_class_empty special content in
  strip U content.

Definition contains_keywords (content : str) (keywords : list str) : dict bool :=
  let content_lower := lower U content in
  fold_left
    (fun d keyword => dict_set keyword (contains (lower U keyword) content_lower) d)
    keywords [].

Definition basic_sentiment_analysis (content : str) : str :=
  let keywords := get_sentiment_keywords in
  let content_lower := lower U content in
  let positive_count := count_hits (positive keywords) content_lower in
  let negative_count := count_hits (negative keywords) content_lower in
  if Nat.ltb negative_count positive_count then py "positive"
  else if Nat.ltb positive_count negative_count then py "negative"
  else py "neutral".

Definition identify_platform (url : str) : str :=
  let url_lower := lower U url in
  match find (fun entry => contains (snd entry) url_lower) SOCIAL_PLATFORMS with
  | Some (platform, _) => platform
  | None => py "unknown"
  end.

End Library.

(** ** The specification's words, for comparison with the code *)

(** [sub] occurs in [s] as a substring. *)
Definition occurs_in (sub s : str) : Prop := exists pre post, s = pre ++ sub ++ post.

(** [n] words of [words] occur in [text]; a word counts once. *)
Inductive hit_count (text : str) : list str -> nat -> Prop :=
| hit_none : hit_count text [] 0
| hit_yes w ws n : occurs_in w text -> hit_count text ws n -> hit_count text (w :: ws) (S n)
| hit_no w ws n : ~ occurs_in w text -> hit_count text ws n -> hit_count text (w :: ws) n.

(** An ['@'] followed by word characters yields those characters. *)
Fixpoint mentions_of (word : char -> bool) (s : str) : list str :=
  match s with
  | [] => []
  | c :: t =>
      if chr_eqb c AT_SIGN
      then match take_while word t with
           | [] => mentions_of word t
           | name => name :: mentions_of word t
           end
      else mentions_of word t
  end.

(** The label after the last ['.'] of a token. *)
Definition last_label (token : str) : str :=
  rev (take_while (fun c => negb (chr_eqb c DOT)) (rev token)).

(** The characters the specification lets [clean] keep: alphanumeric,
    whitespace, and [. , ! ? -]. *)
Definition spec_allowed (U : unicode_db) (c : char) : bool :=
  isalnum U c || isspace U c || one_of (py ".,!?-") c.

(** The characters [clean_text] keeps: word characters (alphanumeric or
    the underscore), whitespace, and [. , ! ? -]. *)
Definition allowed (U : unicode_db) (c : char) : bool :=
  is_word U c || isspace U c || one_of (py ".,!?-") c.

(** The specification's normalizer: collapse each run of whitespace into
    one space, trim, then drop what is not [spec_allowed]. *)
Fixpoint collapse (U : unicode_db) (pending : bool) (started : bool) (s : str) : str :=
  match s with
  | [] => []
  | c :: t =>
      if isspace U c then collapse U started started t
      else (if pending then [SPACE] else []) ++ c :: collapse U false true t
  end.

Definition spec_clean (U : unicode_db) (s : str) : str :=
  filter (spec_allowed U) (collapse U false false s).

(** The two lexicons as the specification lists them. *)
Definition spec_positive : list str :=
  [py "good"; py "great"; py "excellent"; py "amazing";
   py "awesome"; py "love"; py "best"; py "wonderful"].

Definition spec_negative : list str :=
  [py "bad"; py "terrible"; py "awful"; py "hate";
   py "worst"; py "horrible"; py "disappointing"; py "poor"].

(** The strings a pattern can match, the context left aside: a word
    boundary matches the empty string wherever it stands. *)
Fixpoint lang (r : regex) (m : str) : Prop :=
  match r with
  | Bnd => m = []
  | Chr c => m = [c]
  | Rep cls min => Forall (fun c => cls c = true) m /\ min <= length m
  | Opt r' => m = [] \/ lang r' m
  | Cat r1 r2 => exists m1 m2, m = m1 ++ m2 /\ lang r1 m1 /\ lang r2 m2
  | Grp r' => lang r' m
  end.

(** The pattern has no capturing group. *)
Fixpoint no_group (r : regex) : bool :=
  match r with
  | Bnd | Chr _ | Rep _ _ => true
  | Opt r' => no_group r'
  | Cat r1 r2 => no_group r1 && no_group r2
  | Grp _ => false
  end.

(** Every match of the pattern holds the character [c] (a sufficient test). *)
Fixpoint requires (c : char) (r : regex) : bool :=
  match r with
  | Chr c' => chr_eqb c' c
  | Cat r1 r2 => requires c r1 || requires c r2
  | Grp r' => requires c r'
  | Bnd | Rep _ _ | Opt _ => false
  end.

(** ** The rest of the library and of the repository *)

(** [d.get(k)], [None] when the key is missing, and [list(d.keys())]. *)
Fixpoint dict_get {V : Type} (k : str) (d : dict V) : option V :=
  match d with
  | [] => None
  | (k', v) :: d' => if str_eqb k' k then Some v else dict_get k d'
  end.

Definition dict_keys {V : Type} (d : dict V) : list str := map fst d.

(** [scrape_webpage] and [scrape_limited] of [libs/social.py];
    [gl_get_webpage url mode] is the page the fetch collaborator returns. *)
Definition scrape_webpage (url : str) (gl_get_webpage : str -> str -> str) (mode : str) : str :=
  gl_get_webpage url mode.

Definition scrape_limited (url : str) (gl_get_webpage : str -> str -> str) (max_chars : Z)
  : str :=
  let content := gl_get_webpage url (py "text") in
  slice_to content max_chars.

(** [p] is a prefix of [s]. *)
Definition is_prefix (p s : str) : Prop := exists rest, s = p ++ rest.

(** The runs of [word] characters behind each [tag] that has one. *)
Fixpoint tagged (tag : char) (word : char -> bool) (s : str) : list str :=
  match s with
  | [] => []
  | c :: t =>
      if chr_eqb c tag
      then match take_while word t with
           | [] => tagged tag word t
           | name => name :: tagged tag word t
           end
      else tagged tag word t
  end.

(** The elements of a list in the order of their first occurrence;
    [seen] holds the ones already passed. *)
Fixpoint first_occurrences (seen l : list str) : list str :=
  match l with
  | [] => []
  | x :: t =>
      if existsb (str_eqb x) seen then first_occurrences seen t
      else x :: first_occurrences (seen ++ [x]) t
  end.

(** A word of a text: not empty and without whitespace. *)
Definition is_token (U : unicode_db) (t : str) : Prop :=
  t <> [] /\ Forall (fun c => isspace U c = false) t.

(** The service [service/key_service.py]. *)
Module KeyService.

(** An entry of [API_KEYS]: a dictionary with the three keys ["key"],
    ["service"] and ["description"]. *)
Record entry : Type := {
  key : str;
  service : str;
  description : str
}.

Definition API_KEYS : dict entry :=
  [ (py "weather",
     {| key := py "bbe7e79a414f003442cd9662246f7be7";
        service := py "OpenWeatherMap";
        description := py "Get weather data for any city" |});
    (py "price",
     {| key := py "your-coingecko-api-key-here";
        service := py "CoinGecko";
        description := py "Get cryptocurrency prices" |});
    (py "social",
     {| key := py "your-twitter-api-key-here";
        service := py "Twitter/Web Scraping";
        description := py "Scrape and analyze web content" |}) ].

(** The exception the service raises, with its message. *)
Inductive error : Type := ValueError (message : str).

Inductive result (A : Type) : Type :=
| Return (v : A)
| Raise (e : error).

Arguments Return {A} v.
Arguments Raise {A} e.

(** The values of the dictionary [get_service_info] returns. *)
Inductive value : Type :=
| Str (s : str)
| Int (n : Z).

(** [f"Service '{service_name}' not found"]. *)
Definition not_found (service_name : str) : str :=
  py "Service '" ++ service_name ++ py "' not found".

Definition get_api_key (service_name : str) : result str :=
  match dict_get service_name API_KEYS with
  | Some e => Return (key e)
  | None => Raise (ValueError (not_found service_name))
  end.

Definition list_services : list str := dict_keys API_KEYS.

Definition get_service_info (service_name : str) : dict value :=
  match dict_get service_name API_KEYS with
  | Some e =>
      [ (py "name", Str service_name);
        (py "service", Str (service e));
        (py "description", Str (description e));
        (py "key_length", Int (len (key e))) ]
  | None => [ (py "error", Str (not_found service_name)) ]
  end.

End KeyService.

(** * Properties *)

(** ** Cutting at the last separator *)

Lemma chr_eqb_refl (c : char) : chr_eqb c c = true.
Proof. apply N.eqb_refl. Qed.

Lemma chr_eqb_eq (a b : char) : chr_eqb a b = true <-> a = b.
Proof. apply N.eqb_eq. Qed.

Lemma chr_eqb_neq (a b : char) : chr_eqb a b = false <-> a <> b.
Proof. apply N.eqb_neq. Qed.

Lemma rsplit1_without (sep : char) (s : str) :
  ~ In sep s -> rsplit1 sep s = [s].
Proof.
  induction s as [|c t IH]; intros Hno; [reflexivity|].
  cbn [rsplit1]. rewrite IH by (intros H; apply Hno; now right).
  destruct (chr_eqb c sep) eqn:E; [|reflexivity].
  apply chr_eqb_eq in E. exfalso. apply Hno. now left.
Qed.

Lemma rsplit1_at_last (sep : char) (a b : str) :
  ~ In sep b -> rsplit1 sep (a ++ sep :: b) = [a; b].
Proof.
  intros Hno. induction a as [|c a IH].
  - cbn [app rsplit1]. rewrite (rsplit1_without sep b Hno), chr_eqb_refl. reflexivity.
  - cbn [app rsplit1]. rewrite IH. reflexivity.
Qed.

Lemma rsplit1_head_length (sep : char) (s : str) :
  length (hd [] (rsplit1 sep s)) <= length s.
Proof.
  induction s as [|c t IH]; cbn [rsplit1]; [cbn; lia|].
  destruct (rsplit1 sep t) as [|a [|b [|x l]]]; cbn [hd length] in *;
    try (destruct (chr_eqb c sep); cbn [hd length]; lia); lia.
Qed.

(** Every string is cut at its last separator or has none. *)
Lemma last_sep_cases (sep : char) (s : str) :
  (exists a b, s = a ++ sep :: b /\ ~ In sep b) \/ ~ In sep s.
Proof.
  induction s as [|c t [(a & b & -> & Hb)|Hno]].
  - right. intros [].
  - left. exists (c :: a), b. split; [reflexivity|assumption].
  - destruct (N.eq_dec c sep) as [->|Hne].
    + left. exists [], t. split; [reflexivity|assumption].
    + right. intros [H|H]; [now apply Hne|now apply Hno].
Qed.

Lemma slice_to_nonneg (s : str) (n : Z) :
  (0 <= n)%Z -> slice_to s n = firstn (Z.to_nat n) s.
Proof.
  intros Hn. unfold slice_to, len.
  destruct (n <? 0)%Z eqn:E; [apply Z.ltb_lt in E; lia|].
  destruct (Z.le_ge_cases n (Z.of_nat (length s))) as [H|H].
  - rewrite Z.min_l by assumption. reflexivity.
  - rewrite Z.min_r by assumption. rewrite Nat2Z.id.
    rewrite !firstn_all2; [reflexivity|lia|lia].
Qed.

Lemma slice_to_negative (s : str) (n : Z) :
  (n < 0)%Z -> slice_to s n = firstn (length s - Z.to_nat (- n)) s.
Proof.
  intros Hn. unfold slice_to, len.
  destruct (n <? 0)%Z eqn:E; [|apply Z.ltb_ge in E; lia].
  f_equal. lia.
Qed.

Lemma py_dots_length : length (py "...") = 3.
Proof. reflexivity. Qed.

(** ** The summarizer *)

(** C7. For every text and every [max_length], negative ones included: a
    text no longer than [max_length] is returned unchanged; a longer one is
    cut to [content[:max_length]], which for [max_length >= 0] is its first
    [max_length] characters; that prefix is cut again at its last space and
    the marker ["..."] appended, and a prefix without a space is kept whole
    before the marker.  So
    [summarize_content("The quick brown fox jumps", 10)] is
    ["The quick..."] and [summarize_content("short", 100)] is ["short"]. *)
Theorem summarize_content_spec :
  (forall (content : str) (max_length : Z),
      ((len content <= max_length)%Z -> summarize_content content max_length = content) /\
      ((max_length < len content)%Z ->
         let prefix := slice_to content max_length in
         (forall kept word,
             prefix = kept ++ SPACE :: word -> ~ In SPACE word ->
             summarize_content content max_length = kept ++ py "...") /\
         (~ In SPACE prefix ->
             summarize_content content max_length = prefix ++ py "...")) /\
      ((0 <= max_length)%Z ->
         slice_to content max_length = firstn (Z.to_nat max_length) content) /\
      ((0 <= max_length <= len content)%Z ->
         len (slice_to content max_length) = max_length)) /\
  summarize_content (py "The quick brown fox jumps") 10 = py "The quick..." /\
  summarize_content (py "short") 100 = py "short".
Proof.
  split; [|split; reflexivity].
  intros content max_length. split; [|split; [|split]].
  - unfold summarize_content. intros Hle. apply Z.leb_le in Hle. rewrite Hle. reflexivity.
  - unfold summarize_content. intros Hlt.
    assert (E : (len content <=? max_length)%Z = false) by (apply Z.leb_gt; exact Hlt).
    rewrite E. split.
    + intros kept word -> Hword. rewrite (rsplit1_at_last _ _ _ Hword). reflexivity.
    + intros Hno. rewrite (rsplit1_without _ _ Hno). reflexivity.
  - apply slice_to_nonneg.
  - intros [Hpos Hle]. rewrite (slice_to_nonneg _ _ Hpos). unfold len in *.
    rewrite length_firstn. lia.
Qed.

Lemma summarize_content_spec_witness :
  summarize_content (py "a b") 5 = py "a b" /\
  summarize_content (py "ab cd ef") 7 = py "ab cd..." /\
  summarize_content (py "abcdef") 3 = py "abc..." /\
  summarize_content (py "hello world") (-1) = py "hello..." /\
  slice_to (py "ab cd ef") 7 = firstn 7 (py "ab cd ef").
Proof.
  split; [|split; [|split; [|split]]].
  - apply (proj1 summarize_content_spec (py "a b") 5%Z). vm_compute. discriminate.
  - refine (proj1 (proj1 (proj2 (proj1 summarize_content_spec (py "ab cd ef") 7%Z)) _)
              (py "ab cd") (py "e") _ _).
    + reflexivity.
    + reflexivity.
    + vm_compute. intros [H|[]]. discriminate H.
  - refine (proj2 (proj1 (proj2 (proj1 summarize_content_spec (py "abcdef") 3%Z)) _) _).
    + reflexivity.
    + vm_compute. intros [H|[H|[H|[]]]]; discriminate H.
  - refine (proj1 (proj1 (proj2 (proj1 summarize_content_spec (py "hello world") (-1)%Z)) _)
              (py "hello") (py "worl") _ _).
    + reflexivity.
    + reflexivity.
    + vm_compute. intros [H|[H|[H|[H|[]]]]]; discriminate H.
  - apply (proj1 (proj2 (proj2 (proj1 summarize_content_spec (py "ab cd ef") 7%Z)))).
    discriminate.
Defined.

(** C10. The summary is at most three characters longer than [max_length]
    (the marker comes on top of the prefix), and it can be longer than
    [max_length]: ["abcdef"] summarized to 3 is ["abc..."]. *)
Theorem summarize_content_length :
  (forall (content : str) (max_length : Z),
      (0 <= max_length)%Z ->
      (len (summarize_content content max_length) <= max_length + 3)%Z) /\
  (exists (content : str) (max_length : Z),
      (0 <= max_length)%Z /\
      (max_length < len (summarize_content content max_length))%Z).
Proof.
  split.
  - intros content max_length Hpos. unfold summarize_content.
    destruct (len content <=? max_length)%Z eqn:E.
    + apply Z.leb_le in E. lia.
    + rewrite (slice_to_nonneg _ _ Hpos). unfold len. rewrite length_app, py_dots_length.
      pose proof (rsplit1_head_length SPACE (firstn (Z.to_nat max_length) content)) as H1.
      pose proof (firstn_le_length (Z.to_nat max_length) content) as H2.
      rewrite length_firstn in H1. lia.
  - exists (py "abcdef"), 3%Z. split; [lia|]. vm_compute. reflexivity.
Qed.

Lemma summarize_content_length_witness :
  (len (summarize_content (py "abcdef") 3) <= 3 + 3)%Z.
Proof.
  apply (proj1 summarize_content_length (py "abcdef") 3%Z). lia.
Defined.

(** C8 as stated fails: a call with a negative [max_length] returns a
    value.  [summarize_content("hello world", -1)] is ["hello..."]. *)
Lemma summarize_content_negative_returns :
  summarize_content_call (py "hello world") (-1) = Returns (py "hello...") /\
  (forall e, summarize_content_call (py "hello world") (-1) <> Raises e).
Proof.
  split; [reflexivity|]. intros e H. discriminate H.
Qed.

(** C8, amended. A negative [max_length] raises nothing: the call returns
    the text without its last [-max_length] characters, cut at its last
    space (kept whole when it has none), with the marker appended. *)
Theorem summarize_content_negative (content : str) (max_length : Z) :
  (max_length < 0)%Z ->
  let prefix := firstn (length content - Z.to_nat (- max_length)) content in
  exists kept,
    summarize_content_call content max_length = Returns (kept ++ py "...") /\
    ((exists word, prefix = kept ++ SPACE :: word /\ ~ In SPACE word) \/
     (kept = prefix /\ ~ In SPACE prefix)).
Proof.
  intros Hneg prefix. unfold summarize_content_call, summarize_content.
  assert (E : (len content <=? max_length)%Z = false) by (apply Z.leb_gt; unfold len; lia).
  rewrite E, (slice_to_negative _ _ Hneg). fold prefix.
  destruct (last_sep_cases SPACE prefix) as [(a & b & Hab & Hb)|Hno].
  - exists a. rewrite Hab at 1. rewrite (rsplit1_at_last _ _ _ Hb). split; [reflexivity|].
    left. exists b. split; assumption.
  - exists prefix. rewrite (rsplit1_without _ _ Hno). split; [reflexivity|].
    right. split; [reflexivity|assumption].
Qed.

Lemma summarize_content_negative_witness :
  exists kept,
    summarize_content_call (py "hello world") (-1) = Returns (kept ++ py "...") /\
    ((exists word, py "hello worl" = kept ++ SPACE :: word /\ ~ In SPACE word) \/
     (kept = py "hello worl" /\ ~ In SPACE (py "hello worl"))).
Proof.
  apply (summarize_content_negative (py "hello world") (-1)). lia.
Defined.

(** ** Substrings and the sentiment classifier *)

Lemma starts_with_spec (sub s : str) :
  starts_with sub s = true <-> exists post, s = sub ++ post.
Proof.
  revert s. induction sub as [|x sub IH]; intros s; cbn [starts_with].
  - split; [intros _; now exists s|reflexivity].
  - destruct s as [|y s].
    + split; [discriminate|]. intros [post H]. discriminate H.
    + rewrite andb_true_iff, chr_eqb_eq, IH. split.
      * intros [-> [post ->]]. now exists post.
      * intros [post H]. injection H as -> ->. split; [reflexivity|now exists post].
Qed.

Lemma contains_spec (sub s : str) : contains sub s = true <-> occurs_in sub s.
Proof.
  unfold occurs_in. induction s as [|c t IH].
  - cbn [contains]. rewrite orb_false_r, starts_with_spec. split.
    + intros [post H]. now exists [], post.
    + intros (pre & post & H). destruct pre as [|p pre]; [now exists post|discriminate H].
  - cbn [contains]. rewrite orb_true_iff, starts_with_spec, IH. split.
    + intros [[post H]|(pre & post & H)].
      * now exists [], post.
      * exists (c :: pre), post. cbn. now rewrite H.
    + intros (pre & post & H). destruct pre as [|p pre].
      * left. now exists post.
      * right. injection H as _ H. now exists pre, post.
Qed.

Lemma count_hits_length (words : list str) (text : str) :
  count_hits words text = length (filter (fun word => contains word text) words).
Proof.
  unfold count_hits. generalize (filter (fun word => contains word text) words).
  intros l. induction l as [|w l IH]; [reflexivity|].
  cbn. f_equal. exact IH.
Qed.

Lemma count_hits_bound (words : list str) (text : str) :
  count_hits words text <= length words.
Proof. rewrite count_hits_length. apply filter_length_le. Qed.

Lemma hit_count_count_hits (text : str) (words : list str) :
  hit_count text words (count_hits words text).
Proof.
  rewrite count_hits_length. induction words as [|w ws IH]; cbn [filter]; [constructor|].
  destruct (contains w text) eqn:E.
  - cbn [length]. apply hit_yes; [now apply contains_spec|assumption].
  - apply hit_no; [|assumption]. rewrite <- contains_spec, E. discriminate.
Qed.

Lemma hit_count_unique (text : str) (words : list str) (n : nat) :
  hit_count text words n -> n = count_hits words text.
Proof.
  rewrite count_hits_length. induction 1 as [|w ws n Hw _ IH|w ws n Hw _ IH]; cbn [filter].
  - reflexivity.
  - apply contains_spec in Hw. rewrite Hw. cbn [length]. now rewrite IH.
  - destruct (contains w text) eqn:E; [|assumption].
    exfalso. apply Hw. now apply contains_spec.
Qed.

(** C3. The classifier lower-cases the text (on an ASCII text each of the
    letters [A] to [Z] becomes the letter 32 code points up and every other
    character stays) and counts, once each, the words of the positive and
    of the negative lexicon that occur in the lower-cased text as
    substrings; with [P] and [N] these two counts it answers ["positive"]
    when [P > N], ["negative"] when [N > P] and ["neutral"] when they are
    equal.  So ["GOOD"] is ["positive"], ["Terrible, AWFUL"] is
    ["negative"], and ["badge"], which holds ["bad"], is ["negative"]. *)
Theorem basic_sentiment_analysis_spec (U : unicode_db) (content : str) :
  let text := lower U content in
  positive get_sentiment_keywords = spec_positive /\
  negative get_sentiment_keywords = spec_negative /\
  (exists P N, hit_count text spec_positive P /\ hit_count text spec_negative N) /\
  (forall P N,
      hit_count text spec_positive P -> hit_count text spec_negative N ->
      P <= 8 /\ N <= 8 /\
      (N < P -> basic_sentiment_analysis U content = py "positive") /\
      (P < N -> basic_sentiment_analysis U content = py "negative") /\
      (P = N -> basic_sentiment_analysis U content = py "neutral")) /\
  (forallb is_ascii content = true ->
     text = map (fun c => if (N.leb 65 c && N.leb c 90)%bool then (c + 32)%N else c)
                content) /\
  lower U (py "This is AMAZING, Not BAD!") = py "this is amazing, not bad!" /\
  basic_sentiment_analysis U (py "GOOD") = py "positive" /\
  basic_sentiment_analysis U (py "Terrible, AWFUL") = py "negative" /\
  basic_sentiment_analysis U (py "badge") = py "negative".
Proof.
  intros text. split; [reflexivity|]. split; [reflexivity|]. split; [|split].
  - exists (count_hits spec_positive text), (count_hits spec_negative text).
    split; apply hit_count_count_hits.
  - intros P N HP HN. apply hit_count_unique in HP, HN.
    pose proof (count_hits_bound spec_positive text) as BP.
    pose proof (count_hits_bound spec_negative text) as BN.
    change (length spec_positive) with 8 in BP. change (length spec_negative) with 8 in BN.
    unfold basic_sentiment_analysis.
    change (positive get_sentiment_keywords) with spec_positive.
    change (negative get_sentiment_keywords) with spec_negative.
    fold text. rewrite <- HP, <- HN.
    split; [lia|]. split; [lia|]. split; [|split]; intros H.
    + apply Nat.ltb_lt in H. rewrite H. reflexivity.
    + assert (H1 : Nat.ltb N P = false) by (apply Nat.ltb_ge; lia).
      apply Nat.ltb_lt in H. rewrite H1, H. reflexivity.
    + rewrite H, Nat.ltb_irrefl. reflexivity.
  - split; [|repeat split; reflexivity].
    intros H. unfold text, lower. rewrite H. reflexivity.
Qed.

Lemma basic_sentiment_analysis_spec_witness :
  basic_sentiment_analysis ascii_only (py "I LOVE it but the ending was BAD and Poor")
  = py "negative" /\
  lower ascii_only (py "I LOVE it")
  = map (fun c => if (N.leb 65 c && N.leb c 90)%bool then (c + 32)%N else c) (py "I LOVE it").
Proof.
  split.
  - refine (proj1 (proj2 (proj2 (proj2
      (proj1 (proj2 (proj2 (proj2 (basic_sentiment_analysis_spec ascii_only
         (py "I LOVE it but the ending was BAD and Poor"))))) 1 2 _ _)))) _).
    + exact (hit_count_count_hits
               (lower ascii_only (py "I LOVE it but the ending was BAD and Poor"))
               spec_positive).
    + exact (hit_count_count_hits
               (lower ascii_only (py "I LOVE it but the ending was BAD and Poor"))
               spec_negative).
    + lia.
  - apply (proj1 (proj2 (proj2 (proj2 (proj2
      (basic_sentiment_analysis_spec ascii_only (py "I LOVE it"))))))).
    reflexivity.
Defined.

(** C2 as stated fails on its second example: a lexicon word counts once
    however often it occurs, so ["amazing amazing terrible"] has one
    positive and one negative hit and is ["neutral"]. *)
Lemma sentiment_repeated_word_counts_once :
  (forall U, count_hits spec_positive (lower U (py "amazing amazing terrible")) = 1) /\
  (forall U, count_hits spec_negative (lower U (py "amazing amazing terrible")) = 1) /\
  (forall U, basic_sentiment_analysis U (py "amazing amazing terrible") = py "neutral") /\
  (forall U, basic_sentiment_analysis U (py "amazing amazing terrible") <> py "positive").
Proof.
  repeat split; intros U; vm_compute; congruence.
Qed.

(** C2, amended. ["good bad"] is ["neutral"] with one hit on each side,
    and so is ["amazing amazing terrible"]; two different positive words
    against one negative word, as in ["amazing awesome terrible"], give
    ["positive"]. *)
Theorem sentiment_boundary_examples (U : unicode_db) :
  basic_sentiment_analysis U (py "good bad") = py "neutral" /\
  hit_count (lower U (py "good bad")) spec_positive 1 /\
  hit_count (lower U (py "good bad")) spec_negative 1 /\
  basic_sentiment_analysis U (py "amazing amazing terrible") = py "neutral" /\
  hit_count (lower U (py "amazing amazing terrible")) spec_positive 1 /\
  hit_count (lower U (py "amazing amazing terrible")) spec_negative 1 /\
  basic_sentiment_analysis U (py "amazing awesome terrible") = py "positive" /\
  hit_count (lower U (py "amazing awesome terrible")) spec_positive 2 /\
  hit_count (lower U (py "amazing awesome terrible")) spec_negative 1.
Proof.
  repeat split; try (vm_compute; reflexivity);
    match goal with
    | |- hit_count ?t ?ws ?n => change n with (count_hits ws t); apply hit_count_count_hits
    end.
Qed.

(** ** The normalizer *)

Section Normalizer.

Variable U : unicode_db.

Lemma isspace_SPACE : isspace U SPACE = true.
Proof. reflexivity. Qed.

Lemma allowed_SPACE : allowed U SPACE = true.
Proof. reflexivity. Qed.

Lemma split_from_nonempty (s cur : str) : cur <> [] -> split_from U cur s <> [].
Proof.
  revert cur. induction s as [|c t IH]; intros cur Hcur; cbn [split_from].
  - destruct cur; [contradiction|discriminate].
  - destruct (isspace U c).
    + destruct cur; [contradiction|discriminate].
    + apply IH. destruct cur; discriminate.
Qed.

(** Joining the words of [split] with one space is collapsing the runs of
    whitespace and trimming; the three readings of [collapse] are proved
    together. *)
Lemma join_split_from (s : str) :
  (forall cur, cur <> [] ->
     join [SPACE] (split_from U cur s) = cur ++ collapse U false true s) /\
  join [SPACE] (split_from U [] s) = collapse U false false s /\
  collapse U true true s =
    match split_from U [] s with
    | [] => []
    | l => SPACE :: join [SPACE] l
    end.
Proof.
  induction s as [|c t (IH1 & IH2 & IH3)].
  - split; [|split; reflexivity].
    intros [|x cur] Hcur; [contradiction|]. cbn. now rewrite app_nil_r.
  - cbn [split_from collapse]. destruct (isspace U c) eqn:E.
    + split; [|split; assumption].
      intros [|x cur] Hcur; [contradiction|]. rewrite IH3.
      destruct (split_from U [] t) as [|l ls]; [cbn; now rewrite app_nil_r|reflexivity].
    + split; [|split].
      * intros cur _. rewrite IH1 by (destruct cur; discriminate).
        now rewrite <- app_assoc.
      * rewrite IH1 by discriminate. reflexivity.
      * pose proof (split_from_nonempty t ([] ++ [c])) as Hne.
        destruct (split_from U ([] ++ [c]) t) as [|l ls] eqn:El.
        -- exfalso. now apply Hne.
        -- rewrite <- El, IH1 by discriminate. reflexivity.
Qed.

Lemma join_split (s : str) : join [SPACE] (split U s) = collapse U false false s.
Proof. apply (join_split_from s). Qed.

(** Collapsing twice is collapsing once. *)
Lemma collapse_twice_started (s : str) :
  collapse U false true (collapse U false true s) = collapse U false true s /\
  collapse U false true (collapse U true true s) = collapse U true true s.
Proof.
  induction s as [|c t [IH1 IH2]]; [split; reflexivity|].
  cbn [collapse]. destruct (isspace U c) eqn:E.
  - split; assumption.
  - cbn [app collapse]. rewrite isspace_SPACE. cbn [collapse]. rewrite E.
    cbn [app]. rewrite IH1. split; reflexivity.
Qed.

Lemma collapse_twice (s : str) :
  collapse U false false (collapse U false false s) = collapse U false false s.
Proof.
  induction s as [|c t IH]; [reflexivity|].
  cbn [collapse]. destruct (isspace U c) eqn:E; [assumption|].
  cbn [app collapse]. rewrite E. cbn [app].
  now rewrite (proj1 (collapse_twice_started t)).
Qed.

Lemma collapse_Forall (P : char -> Prop) (s : str) (pending started : bool) :
  P SPACE -> Forall P s -> Forall P (collapse U pending started s).
Proof.
  intros Hsp Hs. revert pending started.
  induction Hs as [|c t Hc _ IH]; intros pending started; cbn [collapse]; [constructor|].
  destruct (isspace U c); [apply IH|].
  destruct pending; cbn [app]; repeat (constructor; try assumption); apply IH.
Qed.

(** The collapsed text neither starts nor ends with whitespace. *)
Lemma collapse_first (s : str) :
  drop_while (isspace U) (collapse U false false s) = collapse U false false s.
Proof.
  induction s as [|c t IH]; [reflexivity|].
  cbn [collapse]. destruct (isspace U c) eqn:E; [assumption|].
  cbn [app drop_while]. now rewrite E.
Qed.

Lemma collapse_last (s : str) (pending started : bool) :
  collapse U pending started s = [] \/
  exists o c, collapse U pending started s = o ++ [c] /\ isspace U c = false.
Proof.
  revert pending started. induction s as [|c t IH]; intros pending started; [now left|].
  cbn [collapse]. destruct (isspace U c) eqn:E; [apply IH|]. right.
  destruct (IH false true) as [->|(o & d & -> & Hd)].
  - exists (if pending then [SPACE] else []), c. split; [reflexivity|assumption].
  - exists ((if pending then [SPACE] else []) ++ c :: o), d.
    split; [now rewrite <- app_assoc|assumption].
Qed.

Lemma strip_collapse (s : str) :
  strip U (collapse U false false s) = collapse U false false s.
Proof.
  unfold strip. rewrite collapse_first.
  destruct (collapse_last s false false) as [->|(o & c & -> & Hc)]; [reflexivity|].
  rewrite rev_app_distr. cbn [rev app drop_while]. rewrite Hc.
  change (c :: rev o) with ([c] ++ rev o). rewrite rev_app_distr, rev_involutive.
  reflexivity.
Qed.

Lemma drop_while_Forall (P : char -> Prop) (p : char -> bool) (s : str) :
  Forall P s -> Forall P (drop_while p s).
Proof.
  induction 1 as [|c t Hc Ht IH]; cbn [drop_while]; [constructor|].
  destruct (p c); [assumption|now constructor].
Qed.

Lemma strip_Forall (P : char -> Prop) (s : str) : Forall P s -> Forall P (strip U s).
Proof.
  intros H. unfold strip.
  apply Forall_rev, drop_while_Forall, Forall_rev, drop_while_Forall, H.
Qed.

Lemma filter_Forall_id (f : char -> bool) (s : str) :
  Forall (fun c => f c = true) s -> filter f s = s.
Proof.
  induction 1 as [|c t Hc _ IH]; cbn [filter]; [reflexivity|]. now rewrite Hc, IH.
Qed.

Lemma filter_Forall (f : char -> bool) (s : str) : Forall (fun c => f c = true) (filter f s).
Proof.
  induction s as [|c t IH]; cbn [filter]; [constructor|].
  destruct (f c) eqn:E; [now constructor|assumption].
Qed.

Lemma sub_special (s : str) : sub_class_empty (special U) s = filter (allowed U) s.
Proof.
  unfold sub_class_empty. apply filter_ext. intros c. unfold special, allowed.
  apply negb_involutive.
Qed.

(** [clean_text] in terms of [collapse]. *)
Lemma clean_text_collapse (s : str) :
  clean_text U s = strip U (filter (allowed U) (collapse U false false s)).
Proof. unfold clean_text. now rewrite join_split, sub_special. Qed.

Lemma clean_text_allowed (s : str) : Forall (fun c => allowed U c = true) (clean_text U s).
Proof. rewrite clean_text_collapse. apply strip_Forall, filter_Forall. Qed.

(** On a text the filter leaves alone, [clean_text] only collapses. *)
Lemma clean_text_of_allowed (s : str) :
  Forall (fun c => allowed U c = true) s -> clean_text U s = collapse U false false s.
Proof.
  intros H. rewrite clean_text_collapse, filter_Forall_id, strip_collapse; [reflexivity|].
  apply collapse_Forall; [apply allowed_SPACE|assumption].
Qed.

End Normalizer.

(** C1 as stated fails: the filter leaves the two spaces around a removed
    character side by side, and a second pass collapses them.
    [clean_text("a @ b")] is ["a  b"], and [clean_text("a  b")] is ["a b"]. *)
Lemma clean_text_not_idempotent :
  (forall U, clean_text U (py "a @ b") = py "a  b") /\
  (forall U, clean_text U (clean_text U (py "a @ b")) = py "a b") /\
  (forall U, clean_text U (clean_text U (py "a @ b")) <> clean_text U (py "a @ b")).
Proof.
  repeat split; intros U; vm_compute; congruence.
Qed.

(** C1, amended. A second pass only collapses the runs of spaces the first
    one left: [clean_text(clean_text(x))] is
    [' '.join(clean_text(x).split())].  So [clean_text] is idempotent on
    every text the filter leaves alone (all of its characters are word
    characters, whitespace or one of [. , ! ? -]), and on every text a
    third pass changes nothing. *)
Theorem clean_text_stabilises (U : unicode_db) (x : str) :
  clean_text U (clean_text U x) = join [SPACE] (split U (clean_text U x)) /\
  (Forall (fun c => allowed U c = true) x ->
     clean_text U (clean_text U x) = clean_text U x) /\
  clean_text U (clean_text U (clean_text U x)) = clean_text U (clean_text U x).
Proof.
  pose proof (clean_text_allowed U x) as Hx.
  assert (E2 : clean_text U (clean_text U x) = collapse U false false (clean_text U x))
    by (apply clean_text_of_allowed, Hx).
  split; [|split].
  - rewrite join_split. exact E2.
  - intros H. rewrite (clean_text_of_allowed U x H) at 1 2.
    rewrite clean_text_of_allowed.
    + apply collapse_twice.
    + apply collapse_Forall; [apply allowed_SPACE|assumption].
  - rewrite E2. rewrite clean_text_of_allowed.
    + apply collapse_twice.
    + apply collapse_Forall; [apply allowed_SPACE|assumption].
Qed.

Lemma clean_text_stabilises_witness :
  clean_text ascii_only (clean_text ascii_only (py "  Hello,   World!  "))
  = clean_text ascii_only (py "  Hello,   World!  ").
Proof.
  apply (proj1 (proj2 (clean_text_stabilises ascii_only (py "  Hello,   World!  ")))).
  repeat constructor.
Defined.

(** A slip of the filter class: [\w] holds the underscore, which the
    comment of the source (keep alphanumeric and basic punctuation) does
    not list, and it survives: [clean_text("a_b")] is ["a_b"]. *)
Lemma clean_text_keeps_underscore :
  (forall U, clean_text U (py "a_b") = py "a_b") /\
  (forall U, spec_allowed U UNDERSCORE = false) /\
  (forall U, spec_clean U (py "a_b") = py "ab") /\
  ~ (forall U content c, In c (clean_text U content) -> spec_allowed U c = true).
Proof.
  repeat split; try (intros U; vm_compute; reflexivity).
  intros H. specialize (H ascii_only (py "a_b") UNDERSCORE).
  assert (E : spec_allowed ascii_only UNDERSCORE = false) by reflexivity.
  rewrite H in E; [discriminate|]. vm_compute. tauto.
Qed.

(** ** The matcher *)

Lemma try_down_top {A : Type} (f : nat -> option A) (lo d : nat) (a : A) :
  f (lo + d) = Some a -> try_down f lo d = Some a.
Proof. intros H. destruct d; cbn [try_down]; now rewrite H. Qed.

Lemma try_down_some {A : Type} (f : nat -> option A) (lo d : nat) (a : A) :
  try_down f lo d = Some a -> exists j, lo <= j <= lo + d /\ f j = Some a.
Proof.
  induction d as [|d IH]; cbn [try_down]; intros H.
  - destruct (f (lo + 0)) eqn:E; [|discriminate]. exists (lo + 0). split; [lia|congruence].
  - destruct (f (lo + S d)) eqn:E.
    + exists (lo + S d). split; [lia|congruence].
    + destruct (IH H) as (j & Hj & Hf). exists j. split; [lia|assumption].
Qed.

Lemma take_while_length (p : char -> bool) (s : str) :
  length (take_while p s) <= length s.
Proof.
  induction s as [|c t IH]; cbn [take_while length]; [lia|].
  destruct (p c); cbn [length]; lia.
Qed.

Lemma take_while_Forall (p : char -> bool) (s : str) :
  Forall (fun c => p c = true) (take_while p s).
Proof.
  induction s as [|c t IH]; cbn [take_while]; [constructor|].
  destruct (p c) eqn:E; [now constructor|constructor].
Qed.

Lemma take_while_firstn (p : char -> bool) (s : str) :
  firstn (length (take_while p s)) s = take_while p s.
Proof.
  induction s as [|c t IH]; cbn [take_while]; [reflexivity|].
  destruct (p c); cbn [length firstn]; [now rewrite IH|reflexivity].
Qed.

Lemma firstn_within_run (p : char -> bool) (s : str) (j : nat) :
  j <= length (take_while p s) -> Forall (fun c => p c = true) (firstn j s).
Proof.
  revert j. induction s as [|c t IH]; intros j Hj.
  - rewrite firstn_nil. constructor.
  - destruct j as [|j]; [constructor|]. cbn [take_while] in Hj. cbn [firstn].
    destruct (p c) eqn:E; cbn [length] in Hj; [|lia].
    constructor; [assumption|]. apply IH. lia.
Qed.

Section Matcher.

Variable U : unicode_db.

(** What [exec] consumed is a string of the pattern, and a pattern without
    a group hands the groups on as it got them. *)
Lemma exec_sound {A : Type} (r : regex) :
  forall (caps : list str) (prev : option char) (s : str)
         (k : list str -> option char -> str -> option A) (a : A),
    exec U r caps prev s k = Some a ->
    exists m rest caps' prev',
      s = m ++ rest /\ lang r m /\ k caps' prev' rest = Some a /\
      (no_group r = true -> caps' = caps).
Proof.
  induction r as [|c|cls min|r IH|r1 IH1 r2 IH2|r IH]; intros caps prev s k a H;
    cbn [exec] in H.
  - destruct (at_boundary U prev s); [|discriminate].
    exists [], s, caps, prev. now repeat split.
  - destruct s as [|x t]; [discriminate|].
    destruct (chr_eqb x c) eqn:E; [|discriminate]. apply chr_eqb_eq in E. subst x.
    exists [c], t, caps, (Some c). now repeat split.
  - destruct (Nat.ltb (length (take_while cls s)) min) eqn:E; [discriminate|].
    apply Nat.ltb_ge in E. apply try_down_some in H. destruct H as (j & Hj & Hk).
    assert (Hrun : j <= length (take_while cls s)) by lia.
    pose proof (take_while_length cls s) as Hlen.
    exists (firstn j s), (skipn j s), caps, (prev_after prev (firstn j s)).
    split; [now rewrite firstn_skipn|]. split; [|now split].
    split; [now apply firstn_within_run|]. rewrite length_firstn. lia.
  - destruct (exec U r caps prev s k) as [a0|] eqn:E.
    + destruct (IH _ _ _ _ _ E) as (m & rest & caps' & prev' & Hs & Hm & Hk & Hc).
      exists m, rest, caps', prev'. repeat split; try assumption; [now right|congruence].
    + exists [], s, caps, prev. repeat split; [now left|assumption].
  - destruct (IH1 _ _ _ _ _ H) as (m1 & rest1 & caps1 & prev1 & Hs1 & Hm1 & Hk1 & Hc1).
    destruct (IH2 _ _ _ _ _ Hk1) as (m2 & rest2 & caps2 & prev2 & Hs2 & Hm2 & Hk2 & Hc2).
    exists (m1 ++ m2), rest2, caps2, prev2. split; [|split; [|split]].
    + rewrite Hs1, Hs2. now rewrite app_assoc.
    + now exists m1, m2.
    + assumption.
    + cbn [no_group]. intros Hg. apply andb_true_iff in Hg.
      rewrite Hc2, Hc1; tauto.
  - destruct (IH _ _ _ _ _ H) as (m & rest & caps' & prev' & Hs & Hm & Hk & Hc).
    exists m, rest, (caps' ++ [firstn (length s - length rest) s]), prev'.
    repeat split; try assumption. discriminate.
Qed.

Lemma match_at_sound (r : regex) (prev : option char) (s : str) (caps : list str) (rest : str) :
  match_at U r prev s = Some (caps, rest) ->
  exists m, s = m ++ rest /\ lang r m /\
            firstn (length s - length rest) s = m /\
            (no_group r = true -> caps = []).
Proof.
  intros H. apply exec_sound in H.
  destruct H as (m & rest' & caps' & prev' & Hs & Hm & Hk & Hc).
  injection Hk as <- <-. exists m. subst s. repeat split; try assumption.
  rewrite length_app, Nat.add_sub, firstn_app, Nat.sub_diag, firstn_all.
  cbn [firstn]. apply app_nil_r.
Qed.

Lemma requires_In (c : char) (r : regex) (m : str) :
  requires c r = true -> lang r m -> In c m.
Proof.
  revert m. induction r as [|c'|cls min|r IH|r1 IH1 r2 IH2|r IH]; intros m Hr Hm;
    cbn [requires lang] in *; try discriminate.
  - apply chr_eqb_eq in Hr. subst. now left.
  - destruct Hm as (m1 & m2 & -> & H1 & H2). apply in_or_app.
    apply orb_true_iff in Hr. destruct Hr as [Hr|Hr]; [left; now apply IH1|right; now apply IH2].
  - now apply IH.
Qed.

(** Every item of [findall] comes from a match at some position. *)
Lemma scan_In (r : regex) (x : str) :
  forall (s : str) (prev : option char) (skip : nat),
    In x (scan U r prev s skip) ->
    exists pre t prev' caps rest,
      s = pre ++ t /\ match_at U r prev' t = Some (caps, rest) /\
      x = item caps (firstn (length t - length rest) t).
Proof.
  induction s as [|c t IH]; intros prev skip H; cbn [scan] in H.
  - destruct skip; [|contradiction].
    destruct (match_at U r prev []) as [[caps rest]|] eqn:E; [|contradiction].
    destruct H as [<-|[]]. exists [], [], prev, caps, rest.
    split; [reflexivity|]. split; [assumption|]. now rewrite firstn_nil.
  - assert (Hrec : forall p k, In x (scan U r p t k) ->
              exists pre t' prev' caps rest,
                c :: t = pre ++ t' /\ match_at U r prev' t' = Some (caps, rest) /\
                x = item caps (firstn (length t' - length rest) t')).
    { intros p k Hin. destruct (IH _ _ Hin) as (pre & t' & prev' & caps & rest & -> & Hm & Hx).
      exists (c :: pre), t', prev', caps, rest.
      split; [reflexivity|]. split; assumption. }
    destruct skip as [|k]; [|now apply (Hrec (Some c) k)].
    destruct (match_at U r prev (c :: t)) as [[caps rest]|] eqn:E.
    + destruct H as [<-|H]; [|now apply Hrec in H].
      exists [], (c :: t), prev, caps, rest.
      split; [reflexivity|]. split; [assumption|reflexivity].
    + now apply Hrec in H.
Qed.

(** A text without a character every match must hold has no match. *)
Lemma findall_without (r : regex) (c : char) (s : str) :
  requires c r = true -> ~ In c s -> findall U r s = [].
Proof.
  intros Hr Hno. destruct (findall U r s) as [|x l] eqn:E; [reflexivity|]. exfalso.
  assert (Hx : In x (scan U r None s 0)) by (unfold findall in E; rewrite E; now left).
  apply scan_In in Hx. destruct Hx as (pre & t & prev' & caps & rest & -> & Hm & _).
  apply match_at_sound in Hm. destruct Hm as (m & -> & Hm & _).
  apply Hno. apply in_or_app. right. apply in_or_app. left.
  now apply (requires_In c r).
Qed.

(** A match of a pattern that requires a character is not empty, so the
    scan of [findall] always moves on past a match. *)
Lemma match_at_consumes (r : regex) (c : char) (prev : option char) (s : str)
    (caps : list str) (rest : str) :
  requires c r = true -> match_at U r prev s = Some (caps, rest) -> length rest < length s.
Proof.
  intros Hr Hm. apply match_at_sound in Hm. destruct Hm as (m & -> & Hm & _).
  apply (requires_In c r m Hr) in Hm. rewrite length_app.
  destruct m as [|x m]; [contradiction|]. cbn [length]. lia.
Qed.

End Matcher.

(** Each pattern of the library requires a character. *)
Lemma library_patterns_require (U : unicode_db) :
  requires AT_SIGN email_pattern = true /\
  requires COLON (url_pattern U) = true /\
  requires HASH (hashtag_pattern U) = true /\
  requires AT_SIGN (mention_pattern U) = true.
Proof. repeat split; reflexivity. Qed.

(** ** Mentions *)

Section Mentions.

Variable U : unicode_db.

Lemma is_word_AT_SIGN : is_word U AT_SIGN = false.
Proof. reflexivity. Qed.

(** A tag character followed by a greedy run of a class, the run being the
    group: the match takes the whole run. *)
Lemma tag_match_at (x : char) (w : char -> bool) (prev : option char) (s : str) :
  match_at U (Cat (Chr x) (Grp (Rep w 1))) prev s =
  match s with
  | c :: t =>
      if chr_eqb c x
      then match take_while w t with
           | [] => None
           | name => Some ([name], skipn (length name) t)
           end
      else None
  | [] => None
  end.
Proof.
  unfold match_at. cbn [exec]. destruct s as [|c t]; [reflexivity|].
  destruct (chr_eqb c x); [|reflexivity].
  pose proof (take_while_length w t) as Hlen.
  pose proof (take_while_firstn w t) as Hrun.
  destruct (take_while w t) as [|d name] eqn:E; [reflexivity|].
  cbn [length] in *. cbn [Nat.ltb Nat.leb]. apply try_down_top.
  replace (1 + (S (length name) - 1)) with (S (length name)) by lia.
  rewrite length_skipn.
  replace (length t - (length t - S (length name))) with (S (length name)) by lia.
  rewrite Hrun. reflexivity.
Qed.

Lemma scan_mentions (s : str) :
  forall (prev : option char) (skip : nat),
    Forall (fun c => is_word U c = true) (firstn skip s) ->
    scan U (mention_pattern U) prev s skip = mentions_of (is_word U) s.
Proof.
  unfold mention_pattern.
  induction s as [|c t IH]; intros prev skip Hskip; cbn [scan mentions_of].
  - rewrite tag_match_at. now destruct skip.
  - destruct skip as [|k].
    + rewrite tag_match_at. destruct (chr_eqb c AT_SIGN); [|apply IH; constructor].
      pose proof (take_while_length (is_word U) t) as Hlen.
      pose proof (take_while_firstn (is_word U) t) as Hrun.
      pose proof (take_while_Forall (is_word U) t) as Hall.
      destruct (take_while (is_word U) t) as [|d name] eqn:E; [apply IH; constructor|].
      cbn [item]. f_equal. cbn [length] in Hlen, Hrun.
      rewrite length_firstn, length_skipn. cbn [length].
      replace (Nat.min (S (length t) - (length t - S (length name))) (S (length t)) - 1)
        with (S (length name)) by lia.
      apply IH. rewrite Hrun. assumption.
    + cbn [firstn] in Hskip. inversion Hskip as [|? ? Hc Hk]; subst.
      destruct (chr_eqb c AT_SIGN) eqn:E; [|now apply IH].
      apply chr_eqb_eq in E. subst c. rewrite is_word_AT_SIGN in Hc. discriminate.
Qed.

End Mentions.

(** C9. [extract_mentions] lists, from left to right, the word characters
    that follow each ['@'] that has at least one behind it, without the
    ['@'].  So ["Hey @user1 and @user2!"] gives [["user1", "user2"]], and
    the address ["user@domain.com"] gives [["domain"]]. *)
Theorem extract_mentions_spec (U : unicode_db) :
  (forall content, extract_mentions U content = mentions_of (is_word U) content) /\
  extract_mentions U (py "Hey @user1 and @user2!") = [py "user1"; py "user2"] /\
  extract_mentions U (py "user@domain.com") = [py "domain"].
Proof.
  split; [|split; reflexivity].
  intros content. unfold extract_mentions, findall. apply scan_mentions. constructor.
Qed.

(** ** E-mail addresses *)

Lemma take_while_stop (p : char -> bool) (a b : str) (c : char) :
  Forall (fun x => p x = true) a -> p c = false -> take_while p (a ++ c :: b) = a.
Proof.
  intros Ha Hc. induction Ha as [|x a Hx _ IH]; cbn [app take_while].
  - now rewrite Hc.
  - now rewrite Hx, IH.
Qed.

Lemma last_label_after_dot (x label : str) :
  ~ In DOT label -> last_label (x ++ DOT :: label) = label.
Proof.
  intros Hno. unfold last_label. rewrite rev_app_distr. cbn [rev]. rewrite <- app_assoc.
  cbn [app]. rewrite take_while_stop.
  - apply rev_involutive.
  - apply Forall_rev, Forall_forall. intros c Hc. apply negb_true_iff, chr_eqb_neq.
    intros ->. now apply Hno.
  - now rewrite chr_eqb_refl.
Qed.

Lemma email_tld_cases (c : char) :
  email_tld c = true -> (ascii_isalpha c = true \/ c = BAR) /\ c <> DOT.
Proof.
  unfold email_tld, ascii_isalpha. intros H. split.
  - destruct (ascii_isupper c); [now left|]. destruct (ascii_islower c); [now left|].
    cbn [orb] in H. rewrite orb_false_r in H. apply chr_eqb_eq in H. now right.
  - intros ->. discriminate H.
Qed.

(** The shape of every token of [extract_emails]. *)
Lemma extract_emails_shape (U : unicode_db) (content token : str) :
  In token (extract_emails U content) ->
  exists local domain label,
    token = local ++ AT_SIGN :: domain ++ DOT :: label /\
    Forall (fun c => email_local c = true) local /\ 1 <= length local /\
    Forall (fun c => email_domain c = true) domain /\ 1 <= length domain /\
    Forall (fun c => email_tld c = true) label /\ 2 <= length label.
Proof.
  intros H. unfold extract_emails, findall in H. apply scan_In in H.
  destruct H as (pre & t & prev' & caps & rest & _ & Hm & ->).
  apply match_at_sound in Hm. destruct Hm as (m & _ & Hm & -> & Hcaps).
  rewrite (Hcaps eq_refl). cbn [item]. cbn [email_pattern lang] in Hm.
  destruct Hm as (b1 & m1 & -> & -> & local & m2 & -> & [Hl1 Hl2] & at1 & m3 & -> & -> &
                  domain & m4 & -> & [Hd1 Hd2] & dot1 & m5 & -> & -> &
                  label & b2 & -> & [Ht1 Ht2] & ->).
  exists local, domain, label. rewrite app_nil_r. cbn [app]. now repeat split.
Qed.

(** C6. The class [[A-Z|a-z]] of the pattern holds the bar as well as the
    letters, so the last label of a token has two characters or more,
    each a letter or a bar, and not letters only:
    [extract_emails("a@b.c|d")] is [["a@b.c|d"]], which ends in the label
    ["c|d"]. *)
Theorem extract_emails_bar_in_label (U : unicode_db) :
  (forall content token,
      In token (extract_emails U content) ->
      2 <= length (last_label token) /\
      Forall (fun c => ascii_isalpha c = true \/ c = BAR) (last_label token)) /\
  extract_emails U (py "a@b.c|d") = [py "a@b.c|d"] /\
  last_label (py "a@b.c|d") = py "c|d" /\
  In BAR (py "c|d") /\
  ascii_isalpha BAR = false /\
  (forall V, isalnum V BAR = false).
Proof.
  split; [|repeat split; vm_compute; tauto].
  intros content token H. apply extract_emails_shape in H.
  destruct H as (local & domain & label & -> & _ & _ & _ & _ & Hlabel & Hlen).
  assert (E : last_label (local ++ AT_SIGN :: domain ++ DOT :: label) = label).
  { change (local ++ AT_SIGN :: domain ++ DOT :: label)
      with (local ++ (AT_SIGN :: domain) ++ DOT :: label).
    rewrite app_assoc. apply last_label_after_dot. intros Hin.
    rewrite Forall_forall in Hlabel. now apply (email_tld_cases DOT (Hlabel DOT Hin)). }
  rewrite E. split; [assumption|].
  apply Forall_impl with (2 := Hlabel). intros c Hc. now apply email_tld_cases.
Qed.

Lemma extract_emails_bar_in_label_witness :
  2 <= length (last_label (py "a@b.c|d")) /\
  Forall (fun c => ascii_isalpha c = true \/ c = BAR) (last_label (py "a@b.c|d")).
Proof.
  apply (proj1 (extract_emails_bar_in_label ascii_only) (py "see a@b.c|d") (py "a@b.c|d")).
  vm_compute. now left.
Defined.

(** ** Totality and empty results *)

Lemma count_hits_none (words : list str) (text : str) :
  (forall w, In w words -> ~ occurs_in w text) -> count_hits words text = 0.
Proof.
  intros H. rewrite count_hits_length. induction words as [|w ws IH]; [reflexivity|].
  cbn [filter]. destruct (contains w text) eqn:E.
  - exfalso. apply (H w); [now left|]. now apply contains_spec.
  - apply IH. intros w' Hw'. apply H. now right.
Qed.

Lemma identify_platform_unknown (U : unicode_db) (url : str) :
  (forall entry, In entry SOCIAL_PLATFORMS -> ~ occurs_in (snd entry) (lower U url)) ->
  identify_platform U url = py "unknown".
Proof.
  intros H. unfold identify_platform.
  destruct (find _ SOCIAL_PLATFORMS) as [[platform domain]|] eqn:E; [|reflexivity].
  apply find_some in E. destruct E as [Hin Hc]. exfalso.
  apply (H _ Hin). now apply contains_spec.
Qed.

(** C4. Every operation of the library is a total function of the text: it
    is defined by structural recursion on the text (or on the pattern),
    without fuel, and no step of it can fail, so it returns a value on
    every string.  On the empty string the value is the empty or default
    one, and so it is on a text without the signal looked for: no ['@'], no
    address and no mention; no ['#'], no hashtag; no [':'], no URL; no
    lexicon word, ["neutral"]; no platform domain, ["unknown"]. *)
Theorem analysis_total (U : unicode_db) :
  (extract_emails U [] = [] /\
   extract_urls U [] = [] /\
   extract_hashtags U [] = [] /\
   extract_mentions U [] = [] /\
   clean_text U [] = [] /\
   get_word_count U [] = 0 /\
   contains_keywords U [] [] = [] /\
   basic_sentiment_analysis U [] = py "neutral" /\
   identify_platform U [] = py "unknown" /\
   (forall max_length, (0 <= max_length)%Z -> summarize_content [] max_length = []) /\
   (forall term, search_text U [] term true = str_eqb term []) /\
   (forall term, search_text U [] term false = str_eqb (lower U term) []) /\
   (forall term,
      count_occurrences U [] term = if str_eqb (lower U term) [] then 1 else 0)) /\
  (forall content, ~ In AT_SIGN content ->
     extract_emails U content = [] /\ extract_mentions U content = []) /\
  (forall content, ~ In HASH content -> extract_hashtags U content = []) /\
  (forall content, ~ In COLON content -> extract_urls U content = []) /\
  (forall content,
     (forall w, In w (spec_positive ++ spec_negative) -> ~ occurs_in w (lower U content)) ->
     basic_sentiment_analysis U content = py "neutral") /\
  (forall url,
     (forall entry, In entry SOCIAL_PLATFORMS -> ~ occurs_in (snd entry) (lower U url)) ->
     identify_platform U url = py "unknown").
Proof.
  split; [|split; [|split; [|split; [|split]]]].
  - repeat split; try reflexivity.
    + intros max_length H. unfold summarize_content.
      replace (len [] <=? max_length)%Z with true; [reflexivity|].
      symmetry. apply Z.leb_le. exact H.
    + intros term. now destruct term.
    + intros term. unfold search_text. cbn [negb].
      change (lower U []) with (@nil char). now destruct (lower U term).
    + intros term. unfold count_occurrences.
      change (lower U []) with (@nil char). now destruct (lower U term).
  - intros content H. split; apply findall_without with (c := AT_SIGN); easy.
  - intros content H. apply findall_without with (c := HASH); easy.
  - intros content H. apply findall_without with (c := COLON); easy.
  - intros content H. unfold basic_sentiment_analysis.
    change (positive get_sentiment_keywords) with spec_positive.
    change (negative get_sentiment_keywords) with spec_negative.
    rewrite !count_hits_none; [reflexivity| |];
      intros w Hw; apply H, in_or_app; first [now left|now right].
  - apply identify_platform_unknown.
Qed.

Lemma analysis_total_witness :
  extract_emails ascii_only (py "no address here") = [] /\
  extract_mentions ascii_only (py "no address here") = [] /\
  extract_hashtags ascii_only (py "no tag here") = [] /\
  extract_urls ascii_only (py "no link here") = [] /\
  summarize_content [] 0 = [].
Proof.
  pose proof (analysis_total ascii_only) as (Hempty & Hat & Hhash & Hurl & _).
  assert (no : forall (c : char) (s : str), existsb (chr_eqb c) s = false -> ~ In c s).
  { intros c s E Hin. assert (X : existsb (chr_eqb c) s = true).
    { apply existsb_exists. exists c. split; [assumption|apply chr_eqb_refl]. }
    rewrite X in E. discriminate E. }
  split; [apply Hat, no; reflexivity|].
  split; [apply Hat, no; reflexivity|].
  split; [apply Hhash, no; reflexivity|].
  split; [apply Hurl, no; reflexivity|].
  apply Hempty. lia.
Defined.

(** * Further properties of the library *)

(** ** Searching and counting *)

Lemma lower_ascii (U : unicode_db) (s : str) :
  forallb is_ascii s = true -> lower U s = map ascii_lower s.
Proof. intros H. unfold lower. now rewrite H. Qed.

Lemma ascii_lower_is_ascii (c : char) : is_ascii c = true -> is_ascii (ascii_lower c) = true.
Proof.
  unfold is_ascii, ascii_lower, ascii_isupper, in_range. intros H.
  destruct (N.leb 65 c && N.leb c 90) eqn:E; [|assumption].
  apply andb_true_iff in E. destruct E as [_ E]. apply N.leb_le in E.
  apply N.ltb_lt. lia.
Qed.

Lemma ascii_lower_twice (c : char) : ascii_lower (ascii_lower c) = ascii_lower c.
Proof.
  unfold ascii_lower. destruct (ascii_isupper c) eqn:E; [|now rewrite E].
  replace (ascii_isupper (c + 32)%N) with false; [reflexivity|].
  unfold ascii_isupper, in_range in *.
  apply andb_true_iff in E. destruct E as [E1 E2]. apply N.leb_le in E1, E2.
  symmetry. apply andb_false_iff. right. apply N.leb_gt. lia.
Qed.

Lemma lower_is_ascii (U : unicode_db) (s : str) :
  forallb is_ascii s = true -> forallb is_ascii (lower U s) = true.
Proof.
  intros H. rewrite (lower_ascii U s H). rewrite forallb_forall in *.
  intros c Hc. apply in_map_iff in Hc. destruct Hc as (x & <- & Hx).
  apply ascii_lower_is_ascii. now apply H.
Qed.

Lemma lower_twice (U : unicode_db) (s : str) :
  forallb is_ascii s = true -> lower U (lower U s) = lower U s.
Proof.
  intros H. rewrite (lower_ascii U _ (lower_is_ascii U s H)), (lower_ascii U s H).
  rewrite map_map. apply map_ext. intros c. apply ascii_lower_twice.
Qed.

Lemma lower_length (U : unicode_db) (s : str) :
  forallb is_ascii s = true -> length (lower U s) = length s.
Proof. intros H. rewrite (lower_ascii U s H). apply length_map. Qed.

Lemma occurs_in_map (f : char -> char) (sub s : str) :
  occurs_in sub s -> occurs_in (map f sub) (map f s).
Proof.
  intros (pre & post & ->). exists (map f pre), (map f post). now rewrite !map_app.
Qed.

Lemma contains_nil (s : str) : contains [] s = true.
Proof. now destruct s. Qed.

(** X1. On ASCII text a case-sensitive hit is a hit of the default,
    case-insensitive search as well, and not the other way round; the empty
    term is found in every text, in both modes. *)
Theorem search_text_case (U : unicode_db) :
  (forall content term,
      forallb is_ascii content = true -> forallb is_ascii term = true ->
      search_text U content term true = true ->
      search_text U content term false = true) /\
  (forall content case_sensitive, search_text U content [] case_sensitive = true) /\
  search_text U (py "GenLayer") (py "genlayer") false = true /\
  search_text U (py "GenLayer") (py "genlayer") true = false.
Proof.
  split; [|split; [|split; reflexivity]].
  - intros content term Hc Ht H. unfold search_text in *. cbn [negb] in *.
    rewrite (lower_ascii U _ Hc), (lower_ascii U _ Ht).
    apply contains_spec, occurs_in_map, contains_spec, H.
  - intros content [|]; unfold search_text; cbn [negb].
    + apply contains_nil.
    + change (lower U []) with (@nil char). apply contains_nil.
Qed.

Lemma search_text_case_witness :
  search_text ascii_only (py "Hello World") (py "World") false = true.
Proof.
  apply (proj1 (search_text_case ascii_only) (py "Hello World") (py "World")); reflexivity.
Defined.

Lemma count_from_positive (sub s : str) :
  sub <> [] -> (0 < count_from sub s 0 <-> contains sub s = true).
Proof.
  intros Hsub. induction s as [|c t IH].
  - destruct sub; [contradiction|]. cbn. split; [lia|discriminate].
  - cbn [count_from contains]. destruct (starts_with sub (c :: t)).
    + split; [reflexivity|lia].
    + cbn [orb]. exact IH.
Qed.

(** X2. [count_occurrences] is positive exactly when the case-insensitive
    [search_text] finds the term. *)
Theorem count_occurrences_positive (U : unicode_db) (content search_term : str) :
  0 < count_occurrences U content search_term <->
  search_text U content search_term false = true.
Proof.
  unfold count_occurrences, search_text, str_count. cbn [negb].
  destruct (lower U search_term) as [|x sub] eqn:E.
  - rewrite contains_nil. split; [reflexivity|lia].
  - apply count_from_positive. discriminate.
Qed.

Lemma count_from_bound (sub s : str) (skip : nat) :
  skip <= length s -> count_from sub s skip * length sub <= length s - skip.
Proof.
  revert skip. induction s as [|c t IH]; intros skip Hskip; cbn [count_from length].
  - lia.
  - destruct skip as [|k].
    + destruct (starts_with sub (c :: t)) eqn:E.
      * apply starts_with_spec in E. destruct E as [post E].
        assert (Hlen : length sub <= S (length t)).
        { change (S (length t)) with (length (c :: t)). rewrite E, length_app. lia. }
        destruct sub as [|x sub]; [cbn; lia|]. cbn [length] in *.
        specialize (IH (S (length sub) - 1)). cbn [length] in IH.
        assert (H1 : S (length sub) - 1 <= length t) by lia.
        specialize (IH H1). cbn [Nat.mul]. lia.
      * specialize (IH 0). cbn [length] in *. lia.
    + cbn [length] in Hskip. specialize (IH k). lia.
Qed.

(** X3. Occurrences are counted without overlap: the count times the
    length of the (lower-cased) term is at most the length of the
    (lower-cased) text; the empty term is counted once more than the text
    has characters.  On ASCII text lower-casing keeps the lengths. *)
Theorem count_occurrences_bound (U : unicode_db) (content search_term : str) :
  (lower U search_term <> [] ->
     count_occurrences U content search_term * length (lower U search_term)
     <= length (lower U content)) /\
  (lower U search_term = [] ->
     count_occurrences U content search_term = length (lower U content) + 1) /\
  (forallb is_ascii content = true -> forallb is_ascii search_term = true ->
     search_term <> [] ->
     count_occurrences U content search_term * length search_term <= length content).
Proof.
  assert (G : lower U search_term <> [] ->
     count_occurrences U content search_term * length (lower U search_term)
     <= length (lower U content)).
  { intros H. unfold count_occurrences, str_count.
    destruct (lower U search_term) as [|x sub] eqn:E; [contradiction|].
    pose proof (count_from_bound (x :: sub) (lower U content) 0) as B. lia. }
  split; [exact G|split].
  - intros H. unfold count_occurrences, str_count. now rewrite H.
  - intros Hc Ht Hne. rewrite <- (lower_length U _ Hc), <- (lower_length U _ Ht).
    apply G. intros E. apply (f_equal (@length char)) in E.
    rewrite (lower_length U _ Ht) in E. destruct search_term; [contradiction|discriminate].
Qed.

Lemma count_occurrences_bound_witness :
  count_occurrences ascii_only (py "aaa aaa") (py "AA") * length (py "AA")
  <= length (py "aaa aaa").
Proof.
  apply (proj2 (proj2 (count_occurrences_bound ascii_only (py "aaa aaa") (py "AA"))));
    [reflexivity|reflexivity|discriminate].
Defined.

(** X4. The case of an ASCII text is ignored by every operation that
    lower-cases it: the search, the count, the keyword report, the
    sentiment and the platform are those of the lower-cased text. *)
Theorem case_of_content_ignored (U : unicode_db) (content : str) :
  forallb is_ascii content = true ->
  (forall term, search_text U (lower U content) term false = search_text U content term false) /\
  (forall term, count_occurrences U (lower U content) term = count_occurrences U content term) /\
  (forall keywords,
      contains_keywords U (lower U content) keywords = contains_keywords U content keywords) /\
  basic_sentiment_analysis U (lower U content) = basic_sentiment_analysis U content /\
  identify_platform U (lower U content) = identify_platform U content.
Proof.
  intros H. pose proof (lower_twice U content H) as E.
  unfold search_text, count_occurrences, contains_keywords, basic_sentiment_analysis,
    identify_platform. cbn [negb]. rewrite E. repeat split.
Qed.

Lemma case_of_content_ignored_witness :
  basic_sentiment_analysis ascii_only (lower ascii_only (py "This is AMAZING"))
  = basic_sentiment_analysis ascii_only (py "This is AMAZING").
Proof.
  apply (case_of_content_ignored ascii_only (py "This is AMAZING")). reflexivity.
Defined.

(** ** Words *)

Section Words.

Variable U : unicode_db.

Lemma split_from_token (t rest cur : str) :
  Forall (fun c => isspace U c = false) t ->
  split_from U cur (t ++ rest) = split_from U (cur ++ t) rest.
Proof.
  intros Ht. revert cur. induction Ht as [|c t Hc _ IH]; intros cur.
  - now rewrite app_nil_r.
  - cbn [app split_from]. rewrite Hc, IH, <- app_assoc. reflexivity.
Qed.

Lemma split_from_space (cur rest : str) :
  split_from U cur (SPACE :: rest)
  = match cur with [] => [] | _ => [cur] end ++ split_from U [] rest.
Proof. cbn [split_from]. rewrite isspace_SPACE. now destruct cur. Qed.

Lemma split_from_tokens (s cur : str) :
  Forall (fun c => isspace U c = false) cur ->
  Forall (is_token U) (split_from U cur s).
Proof.
  revert cur. induction s as [|c t IH]; intros cur Hcur; cbn [split_from].
  - destruct cur as [|x cur]; [constructor|]. constructor; [|constructor].
    split; [discriminate|assumption].
  - destruct (isspace U c) eqn:E.
    + destruct cur as [|x cur]; [apply IH; constructor|].
      constructor; [split; [discriminate|assumption]|apply IH; constructor].
    + apply IH. apply Forall_app. split; [assumption|]. now constructor.
Qed.

Lemma split_tokens (s : str) : Forall (is_token U) (split U s).
Proof. apply split_from_tokens. constructor. Qed.

(** Splitting what was joined with one space gives the parts back, the
    empty ones left out. *)
Lemma split_join (parts : list str) :
  Forall (Forall (fun c => isspace U c = false)) parts ->
  split U (join [SPACE] parts) = filter (fun t => negb (str_eqb t [])) parts.
Proof.
  assert (one : forall t, split_from U t [] = filter (fun t => negb (str_eqb t [])) [t])
    by (intros [|x t]; reflexivity).
  induction 1 as [|t rest Ht Hrest IH]; [reflexivity|].
  unfold split in *. destruct rest as [|t2 rest].
  - cbn [join]. rewrite <- (app_nil_r t) at 1. rewrite (split_from_token t [] [] Ht).
    apply one.
  - change (join [SPACE] (t :: t2 :: rest)) with (t ++ SPACE :: join [SPACE] (t2 :: rest)).
    rewrite (split_from_token t _ [] Ht). cbn [app]. rewrite split_from_space, IH.
    now destruct t.
Qed.

Lemma filter_tokens (parts : list str) :
  Forall (is_token U) parts -> filter (fun t => negb (str_eqb t [])) parts = parts.
Proof.
  induction 1 as [|t rest [Hne _] _ IH]; [reflexivity|].
  cbn [filter]. destruct t; [contradiction|]. cbn. now rewrite IH.
Qed.

Lemma tokens_without_space (parts : list str) :
  Forall (is_token U) parts -> Forall (Forall (fun c => isspace U c = false)) parts.
Proof. apply Forall_impl. intros t [_ H]. exact H. Qed.

Lemma split_from_length (s cur : str) :
  2 * length (split_from U cur s)
  <= length s + match cur with [] => 1 | _ => 2 end.
Proof.
  revert cur. induction s as [|c t IH]; intros cur; cbn [split_from length].
  - destruct cur; cbn [length]; lia.
  - destruct (isspace U c).
    + destruct cur; cbn [length]; specialize (IH []); cbn in IH; lia.
    + specialize (IH (cur ++ [c])). destruct cur; cbn [app] in *; lia.
Qed.

Lemma split_from_nil (s cur : str) :
  split_from U cur s = [] <-> cur = [] /\ forallb (isspace U) s = true.
Proof.
  revert cur. induction s as [|c t IH]; intros cur; cbn [split_from forallb].
  - destruct cur; split; easy.
  - destruct (isspace U c) eqn:E; cbn [andb].
    + destruct cur as [|x cur]; [apply IH|]. split; [discriminate|]. intros [H _]. discriminate H.
    + rewrite IH. split; [|intros [_ H]; discriminate H].
      intros [H _]. destruct cur; discriminate H.
Qed.

Lemma split_all_space (ws cur : str) :
  Forall (fun c => isspace U c = true) ws ->
  split_from U cur ws = match cur with [] => [] | _ => [cur] end.
Proof.
  intros H. revert cur. induction H as [|c ws Hc _ IH]; intros cur; [reflexivity|].
  cbn [split_from]. rewrite Hc, (IH []). now destruct cur.
Qed.

Lemma split_from_trailing (s ws cur : str) :
  Forall (fun c => isspace U c = true) ws ->
  split_from U cur (s ++ ws) = split_from U cur s.
Proof.
  intros H. revert cur. induction s as [|c t IH]; intros cur; cbn [app split_from].
  - rewrite (split_all_space ws cur H). reflexivity.
  - destruct (isspace U c); [|apply IH]. rewrite !(IH []). reflexivity.
Qed.

Lemma drop_while_cut (p : char -> bool) (s : str) :
  exists a, s = a ++ drop_while p s /\ Forall (fun c => p c = true) a.
Proof.
  induction s as [|c t (a & Ha & Hall)]; [now exists []|].
  cbn [drop_while]. destruct (p c) eqn:E.
  - exists (c :: a). split; [cbn; now rewrite <- Ha|now constructor].
  - now exists [].
Qed.

Lemma drop_while_head (p : char -> bool) (s : str) (c : char) :
  hd_error (drop_while p s) = Some c -> p c = false.
Proof.
  induction s as [|x t IH]; cbn [drop_while]; [discriminate|].
  destruct (p x) eqn:E; [exact IH|]. cbn. intros H. now injection H as <-.
Qed.

Lemma split_drop_while (s : str) : split U (drop_while (isspace U) s) = split U s.
Proof.
  unfold split. induction s as [|c t IH]; [reflexivity|].
  cbn [drop_while split_from]. destruct (isspace U c) eqn:E; [exact IH|].
  cbn [split_from]. now rewrite E.
Qed.

(** [strip] takes whitespace away at the two ends and nothing else. *)
Lemma strip_cut (s : str) :
  exists a b,
    s = a ++ strip U s ++ b /\
    Forall (fun c => isspace U c = true) a /\ Forall (fun c => isspace U c = true) b.
Proof.
  unfold strip.
  destruct (drop_while_cut (isspace U) s) as (a & Ha & Hall).
  destruct (drop_while_cut (isspace U) (rev (drop_while (isspace U) s))) as (b & Hb & Hbll).
  exists a, (rev b). split; [|split; [assumption|now apply Forall_rev]].
  rewrite <- rev_app_distr, <- Hb, rev_involutive. exact Ha.
Qed.

Lemma split_strip (s : str) : split U (strip U s) = split U s.
Proof.
  destruct (strip_cut s) as (a & b & Hs & Ha & Hb).
  rewrite Hs at 2. unfold split.
  rewrite <- (split_from_trailing (strip U s) b [] Hb).
  clear Hs. induction Ha as [|c a Hc _ IH]; [reflexivity|].
  cbn [app split_from]. now rewrite Hc.
Qed.

Lemma strip_ends (s : str) (c : char) :
  (hd_error (strip U s) = Some c -> isspace U c = false) /\
  (hd_error (rev (strip U s)) = Some c -> isspace U c = false).
Proof.
  unfold strip. rewrite rev_involutive. split; [|apply drop_while_head].
  destruct (drop_while_cut (isspace U) (rev (drop_while (isspace U) s))) as (b & Hb & _).
  apply (f_equal (@rev char)) in Hb. rewrite rev_involutive, rev_app_distr in Hb.
  destruct (rev (drop_while (isspace U) (rev (drop_while (isspace U) s)))) as [|x l];
    [discriminate|].
  cbn. intros H. injection H as ->. apply (drop_while_head (isspace U) s).
  rewrite Hb. reflexivity.
Qed.

Lemma strip_length (s : str) : length (strip U s) <= length s.
Proof.
  destruct (strip_cut s) as (a & b & Hs & _). rewrite Hs at 2. rewrite !length_app. lia.
Qed.

Lemma filter_join (f : char -> bool) (parts : list str) :
  f SPACE = true ->
  filter f (join [SPACE] parts) = join [SPACE] (map (filter f) parts).
Proof.
  intros Hsp. induction parts as [|t [|t2 rest] IH]; [reflexivity|reflexivity|].
  change (join [SPACE] (t :: t2 :: rest)) with (t ++ [SPACE] ++ join [SPACE] (t2 :: rest)).
  rewrite !filter_app, IH. cbn [filter]. rewrite Hsp. reflexivity.
Qed.

Lemma collapse_spaces (s : str) (pending started : bool) :
  Forall (fun c => isspace U c = true -> c = SPACE) (collapse U pending started s).
Proof.
  revert pending started. induction s as [|c t IH]; intros pending started;
    cbn [collapse]; [constructor|].
  destruct (isspace U c) eqn:E; [apply IH|].
  destruct pending; cbn [app]; repeat constructor; try apply IH; try congruence.
Qed.

Lemma collapse_length (s : str) (pending started : bool) :
  length (collapse U pending started s) <= length s + (if pending then 1 else 0).
Proof.
  revert pending started. induction s as [|c t IH]; intros pending started;
    cbn [collapse length]; [lia|].
  destruct (isspace U c).
  - specialize (IH started started). destruct started, pending; lia.
  - specialize (IH false true). cbv iota in IH. rewrite length_app. cbn [length].
    destruct pending; cbn [length]; lia.
Qed.

Lemma split_from_chars (P : char -> Prop) (s cur : str) :
  Forall P cur -> Forall P s -> Forall (Forall P) (split_from U cur s).
Proof.
  intros Hcur Hs. revert cur Hcur.
  induction Hs as [|c t Hc _ IH]; intros cur Hcur; cbn [split_from].
  - destruct cur; [constructor|]. constructor; [assumption|constructor].
  - destruct (isspace U c).
    + destruct cur; [apply IH; constructor|]. constructor; [assumption|apply IH; constructor].
    + apply IH. apply Forall_app. split; [assumption|now constructor].
Qed.

End Words.

(** X5. [get_word_count] is zero exactly on the texts made of whitespace
    only (the empty one among them), and a text of [n] characters has at
    most [(n + 1) / 2] words. *)
Theorem get_word_count_bounds (U : unicode_db) (content : str) :
  (get_word_count U content = 0 <-> forallb (isspace U) content = true) /\
  2 * get_word_count U content <= length content + 1.
Proof.
  unfold get_word_count, split. split.
  - rewrite length_zero_iff_nil, split_from_nil. tauto.
  - apply (split_from_length U content []).
Qed.

(** X6. The words of the cleaned text are the words of the text, each
    without the characters the filter drops, and a word that loses all its
    characters is gone.  So cleaning never adds a word, it keeps the words
    of a text the filter leaves alone, and cleaning twice gives these words
    joined by single spaces. *)
Theorem clean_text_words (U : unicode_db) (content : str) :
  split U (clean_text U content)
  = filter (fun t => negb (str_eqb t [])) (map (filter (allowed U)) (split U content)) /\
  get_word_count U (clean_text U content) <= get_word_count U content /\
  (Forall (fun c => allowed U c = true) content ->
     split U (clean_text U content) = split U content) /\
  clean_text U (clean_text U content)
  = join [SPACE]
      (filter (fun t => negb (str_eqb t [])) (map (filter (allowed U)) (split U content))).
Proof.
  assert (W : split U (clean_text U content)
    = filter (fun t => negb (str_eqb t [])) (map (filter (allowed U)) (split U content))).
  { unfold clean_text. rewrite split_strip, sub_special.
    rewrite (filter_join (allowed U) _ (allowed_SPACE U)). apply split_join.
    pose proof (tokens_without_space U _ (split_tokens U content)) as H.
    revert H. generalize (split U content). intros parts H.
    induction H as [|t rest Ht _ IH]; cbn [map]; constructor; [|exact IH].
    apply incl_Forall with (l1 := t); [|exact Ht].
    intros c Hc. apply filter_In in Hc. apply Hc. }
  split; [exact W|]. split; [|split].
  - unfold get_word_count. rewrite W.
    etransitivity; [apply filter_length_le|]. now rewrite length_map.
  - intros H. rewrite W.
    assert (E : map (filter (allowed U)) (split U content) = split U content).
    { pose proof (split_tokens U content) as T.
      assert (A : Forall (Forall (fun c => allowed U c = true)) (split U content)).
      { apply split_from_chars; [constructor|exact H]. }
      clear T H. revert A. generalize (split U content). intros parts A.
      induction A as [|t rest Ht _ IH]; [reflexivity|].
      cbn [map]. now rewrite (filter_Forall_id _ _ Ht), IH. }
    rewrite E. apply (filter_tokens U), split_tokens.
  - rewrite (clean_text_of_allowed U _ (clean_text_allowed U content)).
    rewrite <- join_split, W. reflexivity.
Qed.

Lemma clean_text_words_witness :
  split ascii_only (clean_text ascii_only (py "  to be,  or not "))
  = split ascii_only (py "  to be,  or not ").
Proof.
  apply (proj1 (proj2 (proj2 (clean_text_words ascii_only (py "  to be,  or not "))))).
  repeat constructor.
Defined.

(** X7. The cleaned text neither starts nor ends with whitespace, its only
    whitespace character is the space (tabs and line breaks are gone), and
    it is not longer than the text. *)
Theorem clean_text_shape (U : unicode_db) (content : str) :
  (forall c, hd_error (clean_text U content) = Some c -> isspace U c = false) /\
  (forall c, hd_error (rev (clean_text U content)) = Some c -> isspace U c = false) /\
  Forall (fun c => isspace U c = true -> c = SPACE) (clean_text U content) /\
  length (clean_text U content) <= length content.
Proof.
  rewrite clean_text_collapse. split; [|split; [|split]].
  - intros c. apply strip_ends.
  - intros c. apply strip_ends.
  - apply strip_Forall.
    apply incl_Forall with (l1 := collapse U false false content);
      [|apply collapse_spaces].
    intros c Hc. apply filter_In in Hc. apply Hc.
  - etransitivity; [apply strip_length|].
    etransitivity; [apply filter_length_le|].
    pose proof (collapse_length U content false false) as H. cbv iota in H. lia.
Qed.





(** ** Hashtags, URLs and addresses *)

Lemma take_while_prefix (p : char -> bool) (s : str) :
  exists rest, s = take_while p s ++ rest.
Proof.
  induction s as [|c t [rest IH]]; [now exists []|].
  cbn [take_while]. destruct (p c); [|now exists (c :: t)].
  exists rest. cbn. now rewrite <- IH.
Qed.

Lemma scan_tagged (U : unicode_db) (tag : char) (w : char -> bool) (s : str) :
  w tag = false ->
  forall (prev : option char) (skip : nat),
    Forall (fun c => w c = true) (firstn skip s) ->
    scan U (Cat (Chr tag) (Grp (Rep w 1))) prev s skip = tagged tag w s.
Proof.
  intros Htag. induction s as [|c t IH]; intros prev skip Hskip; cbn [scan tagged].
  - rewrite tag_match_at. now destruct skip.
  - destruct skip as [|k].
    + rewrite tag_match_at. destruct (chr_eqb c tag); [|apply IH; constructor].
      pose proof (take_while_length w t) as Hlen.
      pose proof (take_while_firstn w t) as Hrun.
      pose proof (take_while_Forall w t) as Hall.
      destruct (take_while w t) as [|d name] eqn:E; [apply IH; constructor|].
      cbn [item]. f_equal. cbn [length] in Hlen, Hrun.
      rewrite length_firstn, length_skipn. cbn [length].
      replace (Nat.min (S (length t) - (length t - S (length name))) (S (length t)) - 1)
        with (S (length name)) by lia.
      apply IH. rewrite Hrun. assumption.
    + cbn [firstn] in Hskip. inversion Hskip as [|? ? Hc Hk]; subst.
      destruct (chr_eqb c tag) eqn:E; [|now apply IH].
      apply chr_eqb_eq in E. subst c. rewrite Htag in Hc. discriminate.
Qed.

Lemma tagged_items (tag : char) (w : char -> bool) (s name : str) :
  In name (tagged tag w s) ->
  name <> [] /\ Forall (fun c => w c = true) name /\ occurs_in (tag :: name) s.
Proof.
  induction s as [|c t IH]; cbn [tagged]; [contradiction|].
  assert (later : In name (tagged tag w t) ->
            name <> [] /\ Forall (fun c => w c = true) name /\ occurs_in (tag :: name) (c :: t)).
  { intros H. destruct (IH H) as (H1 & H2 & pre & post & ->).
    repeat split; try assumption. now exists (c :: pre), post. }
  destruct (chr_eqb c tag) eqn:E; [|exact later].
  pose proof (take_while_Forall w t) as Hall.
  destruct (take_while_prefix w t) as [rest Hrest].
  destruct (take_while w t) as [|d l]; [exact later|].
  intros [<-|H]; [|now apply later].
  apply chr_eqb_eq in E. subst c.
  split; [discriminate|]. split; [assumption|].
  exists [], rest. cbn [app]. now rewrite Hrest.
Qed.

Lemma tagged_length (tag : char) (w : char -> bool) (s : str) :
  length (tagged tag w s) <= count_occ N.eq_dec s tag.
Proof.
  induction s as [|c t IH]; cbn [tagged count_occ]; [cbn; lia|].
  destruct (chr_eqb c tag) eqn:E.
  - apply chr_eqb_eq in E. subst c. destruct (N.eq_dec tag tag) as [_|H]; [|contradiction].
    destruct (take_while w t); cbn [length]; lia.
  - apply chr_eqb_neq in E. destruct (N.eq_dec c tag) as [H|_]; [contradiction|exact IH].
Qed.

(** X8. [extract_hashtags] lists, from left to right, the run of word
    characters behind each ['#'] that has one.  Every hashtag is a
    non-empty string of word characters that follows a ['#'] in the text,
    and there are no more hashtags than ['#'] characters. *)
Theorem extract_hashtags_spec (U : unicode_db) (content : str) :
  extract_hashtags U content = tagged HASH (is_word U) content /\
  (forall name, In name (extract_hashtags U content) ->
     name <> [] /\ Forall (fun c => is_word U c = true) name /\
     occurs_in (HASH :: name) content) /\
  length (extract_hashtags U content) <= count_occ N.eq_dec content HASH.
Proof.
  assert (E : extract_hashtags U content = tagged HASH (is_word U) content).
  { unfold extract_hashtags, findall, hashtag_pattern.
    apply scan_tagged; [reflexivity|constructor]. }
  rewrite E. split; [reflexivity|]. split; [|apply tagged_length].
  intros name. apply tagged_items.
Qed.

Lemma extract_hashtags_spec_witness :
  py "GenLayer" <> [] /\
  Forall (fun c => is_word ascii_only c = true) (py "GenLayer") /\
  occurs_in (HASH :: py "GenLayer") (py "#GenLayer is amazing! #blockchain").
Proof.
  apply (proj1 (proj2 (extract_hashtags_spec ascii_only
            (py "#GenLayer is amazing! #blockchain"))) (py "GenLayer")).
  vm_compute. now left.
Defined.

(** Every item of [findall] for a pattern without a group is a substring
    of the text and a string of the pattern. *)
Lemma findall_items (U : unicode_db) (r : regex) (s x : str) :
  no_group r = true -> In x (findall U r s) -> occurs_in x s /\ lang r x.
Proof.
  intros Hg H. unfold findall in H. apply scan_In in H.
  destruct H as (pre & t & prev' & caps & rest & -> & Hm & ->).
  apply match_at_sound in Hm. destruct Hm as (m & -> & Hm & -> & Hcaps).
  rewrite (Hcaps Hg). cbn [item]. split; [|assumption]. now exists pre, rest.
Qed.

(** X9. Every URL of [extract_urls] is a substring of the text that starts
    with ["http://"] or ["https://"] and goes on with one character or
    more, none of them whitespace or one of the delimiters. *)
Theorem extract_urls_shape (U : unicode_db) (content url : str) :
  In url (extract_urls U content) ->
  occurs_in url content /\
  exists tail,
    (url = py "http://" ++ tail \/ url = py "https://" ++ tail) /\
    tail <> [] /\ Forall (fun c => url_stop U c = false) tail.
Proof.
  intros H. apply findall_items in H; [|reflexivity].
  destruct H as [Hocc Hlang]. split; [assumption|].
  cbv [url_pattern Lit py list_ascii_of_string map lang] in Hlang.
  destruct Hlang as (h & m1 & -> & -> & t1 & m2 & -> & -> & t2 & m3 & -> & -> &
                     p & m4 & -> & -> & s & m5 & -> & Hs & c1 & m6 & -> & -> &
                     s1 & m7 & -> & -> & s2 & tail & -> & -> & Htail & Hlen).
  exists tail. split; [|split].
  - destruct Hs as [->| ->]; [now left|now right].
  - destruct tail; [cbn in Hlen; lia|discriminate].
  - apply Forall_impl with (2 := Htail). intros c Hc. now apply negb_true_iff.
Qed.

Lemma extract_urls_shape_witness :
  occurs_in (py "https://x.y") (py "see https://x.y<z") /\
  exists tail,
    (py "https://x.y" = py "http://" ++ tail \/ py "https://x.y" = py "https://" ++ tail) /\
    tail <> [] /\ Forall (fun c => url_stop ascii_only c = false) tail.
Proof.
  apply (extract_urls_shape ascii_only (py "see https://x.y<z") (py "https://x.y")).
  vm_compute. now left.
Defined.

Ltac bool_cases H :=
  repeat match type of H with
         | _ || _ = true => apply orb_true_iff in H; destruct H as [H|H]
         | _ && _ = true =>
             let H1 := fresh "H" in
             apply andb_true_iff in H; destruct H as [H1 H];
             apply N.leb_le in H1
         | N.leb _ _ = true => apply N.leb_le in H
         | chr_eqb _ _ = true => apply N.eqb_eq in H
         end.

(** The characters of an address are ASCII, not whitespace and, but for
    the separator, not ['@']. *)
Lemma email_char_plain (U : unicode_db) (c : char) :
  email_local c = true \/ email_domain c = true \/ email_tld c = true ->
  c <> AT_SIGN /\ isspace U c = false.
Proof.
  intros H.
  assert (R : (48 <= c <= 57 \/ 65 <= c <= 90 \/ 97 <= c <= 122 \/ c = 46 \/ c = 95 \/
               c = 37 \/ c = 43 \/ c = 45 \/ c = 124)%N).
  { destruct H as [H|[H|H]];
      unfold email_local, email_domain, email_tld, ascii_isupper, ascii_islower,
        ascii_isdigit, in_range, one_of in H;
      repeat match type of H with
             | context [py ?s] =>
                 let l := eval vm_compute in (py s) in change (py s) with l in H
             end;
      cbn [existsb] in H; unfold BAR in H;
      bool_cases H; try discriminate H; lia. }
  split; [unfold AT_SIGN; lia|].
  unfold isspace, is_ascii. replace (N.ltb c 128) with true by (symmetry; apply N.ltb_lt; lia).
  unfold ascii_isspace, in_range. apply orb_false_iff. split; apply andb_false_iff.
  - right. apply N.leb_gt. lia.
  - right. apply N.leb_gt. lia.
Qed.

Lemma Forall_not_In (l : str) (x : char) : Forall (fun c => c <> x) l -> ~ In x l.
Proof. intros H Hin. rewrite Forall_forall in H. now apply (H x Hin). Qed.

Lemma count_occ_once (a b : list N) (x : N) :
  ~ In x a -> ~ In x b -> count_occ N.eq_dec (a ++ x :: b) x = 1.
Proof.
  intros Ha Hb. rewrite count_occ_app. cbn [count_occ].
  destruct (N.eq_dec x x) as [_|Hne]; [|contradiction].
  apply (count_occ_not_In N.eq_dec) in Ha, Hb. rewrite Ha, Hb. reflexivity.
Qed.

(** X10. Every address of [extract_emails] is a substring of the text with
    exactly one ['@'], a non-empty part before it, a ['.'] after it and no
    whitespace. *)
Theorem extract_emails_tokens (U : unicode_db) (content token : str) :
  In token (extract_emails U content) ->
  occurs_in token content /\
  count_occ N.eq_dec token AT_SIGN = 1 /\
  Forall (fun c => isspace U c = false) token /\
  exists local host, token = local ++ AT_SIGN :: host /\ local <> [] /\ In DOT host.
Proof.
  intros H. pose proof (findall_items U email_pattern content token eq_refl H) as [Hocc _].
  apply extract_emails_shape in H.
  destruct H as (local & domain & label & -> & Hl & Hl1 & Hd & _ & Ht & _).
  assert (P : forall l,
             Forall (fun c => email_local c = true \/ email_domain c = true \/
                              email_tld c = true) l ->
             Forall (fun c => c <> AT_SIGN) l /\ Forall (fun c => isspace U c = false) l).
  { intros l Hall. split; apply Forall_impl with (2 := Hall); intros c Hc;
      apply (email_char_plain U c Hc). }
  destruct (P local) as [Al Sl]; [apply Forall_impl with (2 := Hl); tauto|].
  destruct (P domain) as [Ad Sd]; [apply Forall_impl with (2 := Hd); tauto|].
  destruct (P label) as [At St]; [apply Forall_impl with (2 := Ht); tauto|].
  split; [assumption|]. split; [|split].
  - apply count_occ_once; [now apply Forall_not_In|].
    intros Hin. apply in_app_or in Hin. destruct Hin as [Hin|[Hin|Hin]].
    + now apply (Forall_not_In _ _ Ad).
    + discriminate Hin.
    + now apply (Forall_not_In _ _ At).
  - apply Forall_app. split; [assumption|]. constructor; [reflexivity|].
    apply Forall_app. split; [assumption|]. constructor; [reflexivity|assumption].
  - exists local, (domain ++ DOT :: label). split; [reflexivity|]. split.
    + destruct local; [cbn in Hl1; lia|discriminate].
    + apply in_or_app. right. now left.
Qed.

Lemma extract_emails_tokens_witness :
  occurs_in (py "a.b@example.co") (py "contact me at a.b@example.co") /\
  count_occ N.eq_dec (py "a.b@example.co") AT_SIGN = 1 /\
  Forall (fun c => isspace ascii_only c = false) (py "a.b@example.co") /\
  exists local host,
    py "a.b@example.co" = local ++ AT_SIGN :: host /\ local <> [] /\ In DOT host.
Proof.
  apply (extract_emails_tokens ascii_only (py "contact me at a.b@example.co")).
  vm_compute. now left.
Defined.

(** ** The keyword report *)

Lemma str_eqb_eq (a b : str) : str_eqb a b = true <-> a = b.
Proof.
  revert b. induction a as [|x a IH]; intros [|y b]; cbn [str_eqb]; try easy.
  rewrite andb_true_iff, chr_eqb_eq, IH. split; [intros [-> ->]; reflexivity|].
  intros H. injection H as -> ->. now split.
Qed.

Lemma str_eqb_refl (a : str) : str_eqb a a = true.
Proof. now apply str_eqb_eq. Qed.

Lemma str_eqb_sym (a b : str) : str_eqb a b = str_eqb b a.
Proof.
  destruct (str_eqb a b) eqn:E.
  - apply str_eqb_eq in E. subst. symmetry. apply str_eqb_refl.
  - destruct (str_eqb b a) eqn:E'; [|reflexivity].
    apply str_eqb_eq in E'. subst. now rewrite str_eqb_refl in E.
Qed.

Lemma existsb_str (k : str) (l : list str) : existsb (str_eqb k) l = true <-> In k l.
Proof.
  rewrite existsb_exists. split.
  - intros (x & Hx & E). apply str_eqb_eq in E. now subst.
  - intros H. exists k. split; [assumption|apply str_eqb_refl].
Qed.

Section Dict.

Variable V : Type.

(** Lookup after a store. *)
Lemma dict_get_set (k k' : str) (v : V) (d : dict V) :
  dict_get k' (dict_set k v d) = if str_eqb k k' then Some v else dict_get k' d.
Proof.
  induction d as [|[k0 v0] d IH]; cbn [dict_set dict_get]; [reflexivity|].
  destruct (str_eqb k0 k) eqn:E; cbn [dict_get].
  - apply str_eqb_eq in E. subst k0. now destruct (str_eqb k k').
  - destruct (str_eqb k0 k') eqn:E'; [|exact IH].
    apply str_eqb_eq in E'. subst k0. now rewrite (str_eqb_sym k k'), E.
Qed.

(** A store keeps the order of the keys and adds a new key at the end. *)
Lemma dict_keys_set (k : str) (v : V) (d : dict V) :
  dict_keys (dict_set k v d)
  = if existsb (str_eqb k) (dict_keys d) then dict_keys d else dict_keys d ++ [k].
Proof.
  unfold dict_keys. induction d as [|[k0 v0] d IH]; cbn [dict_set map existsb fst];
    [reflexivity|].
  rewrite (str_eqb_sym k k0). destruct (str_eqb k0 k); cbn [orb map fst]; [reflexivity|].
  rewrite IH. now destruct (existsb (str_eqb k) (map fst d)).
Qed.

Variable f : str -> V.

Lemma fold_set_keys (keywords : list str) (d : dict V) :
  dict_keys (fold_left (fun d keyword => dict_set keyword (f keyword) d) keywords d)
  = dict_keys d ++ first_occurrences (dict_keys d) keywords.
Proof.
  revert d. induction keywords as [|kw rest IH]; intros d; cbn [fold_left first_occurrences].
  - now rewrite app_nil_r.
  - rewrite IH, dict_keys_set. destruct (existsb (str_eqb kw) (dict_keys d)); [reflexivity|].
    now rewrite <- app_assoc.
Qed.

Lemma fold_set_get (keywords : list str) (d : dict V) (k : str) :
  dict_get k (fold_left (fun d keyword => dict_set keyword (f keyword) d) keywords d)
  = if existsb (str_eqb k) keywords then Some (f k) else dict_get k d.
Proof.
  revert d. induction keywords as [|kw rest IH]; intros d; cbn [fold_left existsb];
    [reflexivity|].
  rewrite IH, dict_get_set, (str_eqb_sym kw k). destruct (str_eqb k kw) eqn:E; cbn [orb].
  - apply str_eqb_eq in E. subst kw. now destruct (existsb (str_eqb k) rest).
  - reflexivity.
Qed.

End Dict.

Lemma first_occurrences_fresh (l seen : list str) :
  (forall x, In x (first_occurrences seen l) -> In x l /\ ~ In x seen) /\
  NoDup (first_occurrences seen l) /\
  length (first_occurrences seen l) <= length l.
Proof.
  revert seen. induction l as [|y t IH]; intros seen; cbn [first_occurrences].
  - repeat split; try constructor; contradiction.
  - destruct (existsb (str_eqb y) seen) eqn:E.
    + destruct (IH seen) as (H1 & H2 & H3). repeat split; try assumption.
      * right. now apply H1.
      * now apply H1.
      * cbn [length]. lia.
    + destruct (IH (seen ++ [y])) as (H1 & H2 & H3).
      assert (Hy : ~ In y seen).
      { intros Hin. apply existsb_str in Hin. rewrite Hin in E. discriminate. }
      split; [|split].
      * intros x [<-|Hx]; [split; [now left|assumption]|].
        destruct (H1 x Hx) as [Hin Hno]. split; [now right|].
        intros Hs. apply Hno, in_or_app. now left.
      * constructor; [|assumption]. intros Hin. apply H1 in Hin.
        apply (proj2 Hin), in_or_app. right. now left.
      * cbn [length]. lia.
Qed.

(** X11. The report of [contains_keywords] holds each keyword once, in
    the order of its first occurrence in the list; under each keyword of
    the list stands what the case-insensitive [search_text] answers for it,
    and no other key is in the report. *)
Theorem contains_keywords_report (U : unicode_db) (content : str) (keywords : list str) :
  dict_keys (contains_keywords U content keywords) = first_occurrences [] keywords /\
  NoDup (dict_keys (contains_keywords U content keywords)) /\
  length (contains_keywords U content keywords) <= length keywords /\
  (forall keyword, In keyword keywords ->
     dict_get keyword (contains_keywords U content keywords)
     = Some (search_text U content keyword false)) /\
  (forall keyword, ~ In keyword keywords ->
     dict_get keyword (contains_keywords U content keywords) = None).
Proof.
  unfold contains_keywords, search_text. cbn [negb].
  pose (f := fun keyword => contains (lower U keyword) (lower U content)).
  pose proof (fold_set_keys bool f keywords []) as K.
  pose proof (fold_set_get bool f keywords []) as G.
  subst f. cbn beta in K, G. cbn [dict_keys map app] in K. fold (@dict_keys bool) in K.
  destruct (first_occurrences_fresh keywords []) as (_ & N1 & N2).
  split; [exact K|]. split; [now rewrite K|]. split; [|split].
  - match goal with
    | |- length ?d <= _ =>
        replace (length d) with (length (dict_keys d)) by (unfold dict_keys; apply length_map)
    end.
    now rewrite K.
  - intros keyword Hin. rewrite G. apply existsb_str in Hin. now rewrite Hin.
  - intros keyword Hno. rewrite G.
    destruct (existsb (str_eqb keyword) keywords) eqn:E; [|reflexivity].
    apply existsb_str in E. contradiction.
Qed.

Lemma contains_keywords_report_witness :
  dict_get (py "AI") (contains_keywords ascii_only (py "Fair chain") [py "chain"; py "AI"])
  = Some (search_text ascii_only (py "Fair chain") (py "AI") false).
Proof.
  apply (proj1 (proj2 (proj2 (proj2
    (contains_keywords_report ascii_only (py "Fair chain") [py "chain"; py "AI"]))))).
  right. now left.
Defined.

(** ** The platform table *)

Lemma find_first {A : Type} (f : A -> bool) (pre post : list A) (x : A) :
  (forall y, In y pre -> f y = false) -> f x = true ->
  find f (pre ++ x :: post) = Some x.
Proof.
  intros Hpre Hx. induction pre as [|y pre IH]; cbn [app find].
  - now rewrite Hx.
  - rewrite (Hpre y) by now left. apply IH. intros z Hz. apply Hpre. now right.
Qed.

(** X12. [identify_platform] answers one of the six platforms of the table
    or ["unknown"]; it answers ["unknown"] exactly when no domain of the
    table occurs in the lower-cased URL, and otherwise the platform of the
    first entry of the table whose domain occurs. *)
Theorem identify_platform_result (U : unicode_db) (url : str) :
  In (identify_platform U url)
     [py "twitter"; py "facebook"; py "instagram"; py "linkedin"; py "reddit";
      py "youtube"; py "unknown"] /\
  (identify_platform U url = py "unknown" <->
   forall entry, In entry SOCIAL_PLATFORMS -> ~ occurs_in (snd entry) (lower U url)) /\
  (forall before platform domain after,
      SOCIAL_PLATFORMS = before ++ (platform, domain) :: after ->
      occurs_in domain (lower U url) ->
      (forall entry, In entry before -> ~ occurs_in (snd entry) (lower U url)) ->
      identify_platform U url = platform).
Proof.
  split; [|split; [split|]].
  - unfold identify_platform.
    destruct (find _ SOCIAL_PLATFORMS) as [[platform domain]|] eqn:E.
    + apply find_some in E. destruct E as [Hin _]. cbn in Hin.
      repeat (destruct Hin as [Hin|Hin]; [injection Hin as <- _; cbn; tauto|]).
      contradiction.
    + cbn. tauto.
  - intros Hu entry Hin Hocc. unfold identify_platform in Hu.
    destruct (find _ SOCIAL_PLATFORMS) as [[platform domain]|] eqn:E.
    + apply find_some in E. destruct E as [Hp _]. subst platform. cbn in Hp.
      repeat (destruct Hp as [Hp|Hp]; [discriminate Hp|]). contradiction.
    + apply (find_none _ _ E) in Hin. apply contains_spec in Hocc.
      rewrite Hocc in Hin. discriminate.
  - apply identify_platform_unknown.
  - intros before platform domain after Htable Hocc Hbefore. unfold identify_platform.
    rewrite Htable, (find_first _ before after (platform, domain)); [reflexivity| |].
    + intros y Hy. destruct (contains (snd y) (lower U url)) eqn:E; [|reflexivity].
      exfalso. apply (Hbefore y Hy). now apply contains_spec.
    + now apply contains_spec.
Qed.

Lemma identify_platform_result_witness :
  identify_platform ascii_only (py "https://Facebook.com/share?u=twitter.com/x")
  = py "twitter".
Proof.
  refine (proj2 (proj2 (identify_platform_result ascii_only
            (py "https://Facebook.com/share?u=twitter.com/x")))
          [] (py "twitter") (py "twitter.com") _ eq_refl _ _).
  - apply contains_spec. reflexivity.
  - intros entry [].
Defined.

(** ** Limits *)

Lemma firstn_prefix (n : nat) (s : str) : is_prefix (firstn n s) s.
Proof. exists (skipn n s). symmetry. apply firstn_skipn. Qed.

Lemma slice_to_prefix (s : str) (n : Z) : is_prefix (slice_to s n) s.
Proof. unfold slice_to. apply firstn_prefix. Qed.

(** X13. [scrape_limited] returns a prefix of the page it fetched in
    ['text'] mode: at most [max_chars] characters of it when [max_chars]
    is not negative, the whole page when the page is not longer than that,
    and the page without its last [-max_chars] characters when [max_chars]
    is negative. *)
Theorem scrape_limited_prefix (gl_get_webpage : str -> str -> str) (url : str)
    (max_chars : Z) :
  let page := gl_get_webpage url (py "text") in
  is_prefix (scrape_limited url gl_get_webpage max_chars) page /\
  ((0 <= max_chars)%Z -> (len (scrape_limited url gl_get_webpage max_chars) <= max_chars)%Z) /\
  ((len page <= max_chars)%Z -> scrape_limited url gl_get_webpage max_chars = page) /\
  ((max_chars < 0)%Z ->
     length (scrape_limited url gl_get_webpage max_chars)
     = length page - Z.to_nat (- max_chars)).
Proof.
  intros page. unfold scrape_limited. fold page. split; [apply slice_to_prefix|].
  split; [|split].
  - intros H. rewrite (slice_to_nonneg _ _ H). unfold len. rewrite length_firstn. lia.
  - intros H. unfold len in H.
    assert (H0 : (0 <= max_chars)%Z) by lia.
    rewrite (slice_to_nonneg _ _ H0). apply firstn_all2. lia.
  - intros H. rewrite (slice_to_negative _ _ H), length_firstn. lia.
Qed.

Lemma scrape_limited_prefix_witness :
  (len (scrape_limited (py "https://example.com") (fun url mode => url ++ mode) 10) <= 10)%Z.
Proof.
  apply (proj1 (proj2 (scrape_limited_prefix (fun url mode => url ++ mode)
                         (py "https://example.com") 10))).
  lia.
Defined.

Lemma rsplit1_head_prefix (sep : char) (s : str) : is_prefix (hd [] (rsplit1 sep s)) s.
Proof.
  destruct (last_sep_cases sep s) as [(a & b & -> & Hb)|Hno].
  - rewrite (rsplit1_at_last _ _ _ Hb). now exists (sep :: b).
  - rewrite (rsplit1_without _ _ Hno). exists []. now rewrite app_nil_r.
Qed.

(** X14. Whatever [max_length] is, the summary is the text itself or a
    prefix of the text followed by the marker; the prefix is shorter than
    a non-empty text.  The empty text with a negative [max_length] gives
    the marker alone. *)
Theorem summarize_content_prefix (content : str) (max_length : Z) :
  (summarize_content content max_length = content \/
   exists kept,
     summarize_content content max_length = kept ++ py "..." /\
     is_prefix kept content /\
     (content <> [] -> length kept < length content)) /\
  ((max_length < 0)%Z -> summarize_content [] max_length = py "...").
Proof.
  split.
  - unfold summarize_content. destruct (len content <=? max_length)%Z eqn:E; [now left|].
    right. apply Z.leb_gt in E. unfold len in E.
    exists (hd [] (rsplit1 SPACE (slice_to content max_length))).
    split; [reflexivity|]. split.
    + destruct (rsplit1_head_prefix SPACE (slice_to content max_length)) as [r1 H1].
      destruct (slice_to_prefix content max_length) as [r2 H2].
      exists (r1 ++ r2). rewrite H2 at 1. rewrite H1 at 1. now rewrite <- app_assoc.
    + intros Hne.
      pose proof (rsplit1_head_length SPACE (slice_to content max_length)) as H1.
      assert (H2 : length (slice_to content max_length) < length content).
      { destruct (Z.lt_ge_cases max_length 0) as [Hn|Hp].
        - rewrite (slice_to_negative _ _ Hn), length_firstn.
          destruct content; [contradiction|]. cbn [length]. lia.
        - rewrite (slice_to_nonneg _ _ Hp), length_firstn. lia. }
      lia.
  - intros H. unfold summarize_content.
    replace (len [] <=? max_length)%Z with false;
      [now rewrite (slice_to_negative _ _ H), firstn_nil|].
    symmetry. apply Z.leb_gt. exact H.
Qed.

Lemma summarize_content_prefix_witness : summarize_content [] (-3) = py "...".
Proof.
  apply (proj2 (summarize_content_prefix [] (-3))). lia.
Defined.

(** ** The key service *)

Lemma dict_get_keys {V : Type} (k : str) (d : dict V) :
  dict_get k d = None <-> ~ In k (dict_keys d).
Proof.
  unfold dict_keys. induction d as [|[k0 v0] d IH]; cbn [dict_get map fst In]; [tauto|].
  destruct (str_eqb k0 k) eqn:E.
  - apply str_eqb_eq in E. split; [discriminate|]. intros H. exfalso. apply H. now left.
  - rewrite IH. split; [|tauto]. intros H [H0|H0]; [|contradiction].
    subst k0. now rewrite str_eqb_refl in E.
Qed.

(** X15. [get_api_key] returns a key for exactly the services that
    [list_services] lists, which are ["weather"], ["price"] and ["social"];
    for any other name it raises [ValueError] with a message that quotes
    the name. *)
Theorem get_api_key_listed (service_name : str) :
  KeyService.list_services = [py "weather"; py "price"; py "social"] /\
  (In service_name KeyService.list_services ->
     exists k, KeyService.get_api_key service_name = KeyService.Return k /\ k <> []) /\
  (~ In service_name KeyService.list_services ->
     KeyService.get_api_key service_name
     = KeyService.Raise (KeyService.ValueError
         (py "Service '" ++ service_name ++ py "' not found"))).
Proof.
  split; [reflexivity|]. split.
  - intros H. cbn in H.
    destruct H as [<-|[<-|[<-|[]]]]; eexists; (split; [reflexivity|discriminate]).
  - intros H. apply dict_get_keys in H. unfold KeyService.get_api_key.
    fold KeyService.list_services in H. unfold KeyService.list_services in H.
    now rewrite H.
Qed.

Lemma get_api_key_listed_witness :
  KeyService.get_api_key (py "weather ")
  = KeyService.Raise (KeyService.ValueError (py "Service 'weather ' not found")).
Proof.
  apply (proj2 (proj2 (get_api_key_listed (py "weather ")))).
  cbn. intros [H|[H|[H|[]]]]; discriminate H.
Defined.

(** X16. [get_service_info] never hands out the key.  For a listed service
    the dictionary has no entry ["key"], none of its strings holds the key,
    and ["key_length"] is the length of the key [get_api_key] returns; for
    any other name it is the one entry ["error"] with the message
    [get_api_key] raises. *)
Theorem get_service_info_hides_key (service_name : str) :
  dict_get (py "key") (KeyService.get_service_info service_name) = None /\
  (forall k,
      KeyService.get_api_key service_name = KeyService.Return k ->
      dict_get (py "key_length") (KeyService.get_service_info service_name)
      = Some (KeyService.Int (len k)) /\
      dict_get (py "name") (KeyService.get_service_info service_name)
      = Some (KeyService.Str service_name) /\
      dict_get (py "error") (KeyService.get_service_info service_name) = None /\
      (forall field s,
          In (field, KeyService.Str s) (KeyService.get_service_info service_name) ->
          ~ occurs_in k s)) /\
  (forall message,
      KeyService.get_api_key service_name
      = KeyService.Raise (KeyService.ValueError message) ->
      KeyService.get_service_info service_name = [(py "error", KeyService.Str message)]).
Proof.
  unfold KeyService.get_api_key, KeyService.get_service_info.
  split; [|split].
  - now destruct (dict_get service_name KeyService.API_KEYS).
  - intros k Hk.
    assert (L : In service_name KeyService.list_services).
    { destruct (in_dec (list_eq_dec N.eq_dec) service_name KeyService.list_services)
        as [Hin|Hno]; [assumption|].
      apply dict_get_keys in Hno. unfold KeyService.list_services in Hno.
      fold KeyService.list_services in Hno. unfold KeyService.list_services in Hno.
      rewrite Hno in Hk. discriminate Hk. }
    cbn in L. destruct L as [<-|[<-|[<-|[]]]];
      cbn in Hk; injection Hk as <-;
      (split; [reflexivity|]); (split; [reflexivity|]); (split; [reflexivity|]);
      intros field s Hin Hocc; apply contains_spec in Hocc; cbn in Hin;
      repeat (destruct Hin as [Hin|Hin];
              [try discriminate Hin; injection Hin as _ <-;
               vm_compute in Hocc; discriminate Hocc|]);
      contradiction.
  - intros message H. destruct (dict_get service_name KeyService.API_KEYS); [discriminate H|].
    now injection H as <-.
Qed.

Lemma get_service_info_hides_key_witness :
  dict_get (py "key_length") (KeyService.get_service_info (py "weather"))
  = Some (KeyService.Int 32).
Proof.
  apply (proj1 (proj2 (get_service_info_hides_key (py "weather")))
           (py "bbe7e79a414f003442cd9662246f7be7")).
  reflexivity.
Defined.

(** ** Mentions again *)

(** X17. Every mention of [extract_mentions] is a non-empty string of word
    characters that follows an ['@'] in the text, no mention holds an
    ['@'], and there are no more mentions than ['@'] characters. *)
Theorem extract_mentions_items (U : unicode_db) (content : str) :
  (forall name, In name (extract_mentions U content) ->
     name <> [] /\ Forall (fun c => is_word U c = true) name /\
     ~ In AT_SIGN name /\ occurs_in (AT_SIGN :: name) content) /\
  length (extract_mentions U content) <= count_occ N.eq_dec content AT_SIGN.
Proof.
  assert (E : extract_mentions U content = tagged AT_SIGN (is_word U) content).
  { unfold extract_mentions, findall, mention_pattern.
    apply scan_tagged; [reflexivity|constructor]. }
  rewrite E. split; [|apply tagged_length].
  intros name H. apply tagged_items in H. destruct H as (H1 & H2 & H3).
  repeat split; try assumption.
  intros Hin. rewrite Forall_forall in H2. specialize (H2 _ Hin).
  rewrite is_word_AT_SIGN in H2. discriminate.
Qed.

Lemma extract_mentions_items_witness :
  py "domain" <> [] /\
  Forall (fun c => is_word ascii_only c = true) (py "domain") /\
  ~ In AT_SIGN (py "domain") /\
  occurs_in (AT_SIGN :: py "domain") (py "user@domain.com").
Proof.
  apply (proj1 (extract_mentions_items ascii_only (py "user@domain.com")) (py "domain")).
  vm_compute. now left.
Defined.
